(** * Profile load/cache orchestrator and account secret store

    A shallow embedding of
    - [src/app/shared/profile/profile.proxy.ts] (class [ProfileProxy]) and
    - [src/app/shared/security-service/nostr-secret.statefull.ts]
      (class [NostrSecretStatefull]),
    followed by the properties of the two components.

    The TypeScript code is asynchronous and effectful.  It runs on a single
    thread and every property below is about one call (or a sequence of
    calls) run to completion, so a call is a function from the state of the
    application before it to an outcome and the state after it.  An
    exception or a rejected promise keeps the mutations made before it: the
    state after a throw is part of the outcome. *)

From Stdlib Require Import Ascii String.
From stdpp Require Import base option list strings gmap.

Open Scope string_scope.
Open Scope list_scope.

(** ** Domain types *)

(** [TNostrPublic] ([@domain/nostr-public.type]): the canonical public
    identifier, a string. *)
Abbreviation TNostrPublic := string (only parsing).

(** Modelled from the spec: the enum [DataLoadType]
    ([@domain/data-load.type]) is not among the sources; the source names
    [LAZY_LOADED], the spec lists the three states. *)
Inductive DataLoadType : Type :=
  | UNRESOLVED
  | LAZY_LOADED
  | EAGER_LOADED.

Global Instance DataLoadType_eq_dec : EqDecision DataLoadType.
Proof. solve_decision. Defined.

(** Modelled from the spec: the class [NostrUser] ([@domain/nostr-user])
    is not among the sources.  It is the local user handle built from a
    raw secret; the proxy reads its [nostrPublic]. *)
Record NostrUser : Type := mkNostrUser {
  nsec : string;
  nostrPublic : TNostrPublic
}.

Global Instance NostrUser_eq_dec : EqDecision NostrUser.
Proof. solve_decision. Defined.

(** Modelled from the spec: the interface [IProfile]
    ([domain/profile.interface]) is not among the sources.  The proxy
    reads [load] and writes [user]; the identifier and the display fields
    are the ones the spec lists. *)
Module IProfile.
Record t : Type := mk {
  npub : TNostrPublic;
  name : string;
  bio : string;
  image : string;
  user : option NostrUser;
  load : DataLoadType
}.

Definition set_user (u : NostrUser) (p : t) : t :=
  mk (npub p) (name p) (bio p) (image p) (Some u) (load p).
End IProfile.

Global Instance IProfile_eq_dec : EqDecision IProfile.t.
Proof. solve_decision. Defined.

(** Modelled from the spec: the interface [IUnauthenticatedUser]
    ([./unauthenticated-user]) is not among the sources.  The store reads
    [npub]; [nsecEncrypted] is the field of the intersection type
    [IUnauthenticatedUser & { nsecEncrypted: string }], absent on a plain
    [IUnauthenticatedUser]. *)
Module IUnauthenticatedUser.
Record t : Type := mk {
  npub : TNostrPublic;
  nsecEncrypted : option string
}.
End IUnauthenticatedUser.

Global Instance IUnauthenticatedUser_eq_dec : EqDecision IUnauthenticatedUser.t.
Proof. solve_decision. Defined.

(** A raw record of the remote source ([Event<NostrEventKind>] of
    nostr-tools), reduced to what a profile is cast from: the identifier
    of its author and the display fields of its content. *)
Record Event : Type := mkEvent {
  author : TNostrPublic;
  content_name : string;
  content_about : string;
  content_picture : string
}.

(** A reference to a profile object.  Profile objects live in the static
    map [ProfileCache.profiles] only, one per key, and the cache mutates
    them in place; a reference to one is therefore the key it is stored
    under, and an assignment through the reference is an update of the
    map entry, seen by every holder of the reference. *)
Record ProfileRef : Type := ProfileAt { ref_key : TNostrPublic }.

Global Instance ProfileRef_eq_dec : EqDecision ProfileRef.
Proof. solve_decision. Defined.

(** ** JavaScript values the code relies on *)

(** [[...new Set(xs)]]: the distinct elements of [xs] in the order of
    their first occurrence ([Set] iterates in insertion order and [add]
    of a present element does nothing). *)
Definition Set_add (acc : list string) (x : string) : list string :=
  if decide (x ∈ acc) then acc else acc ++ [x].

Definition Set_spread (xs : list string) : list string :=
  foldl Set_add [] xs.

(** A JavaScript object used as a string-keyed dictionary.  Property
    order is insertion order (the keys of the registry are [npub1...]
    strings, never array indices): assignment to a present key replaces
    the value in place, assignment to a new key appends, [delete] removes
    the property. *)
Section JsObject.
Context {V : Type}.

Definition JsObject : Type := list (string * V).

Fixpoint obj_get (o : JsObject) (k : string) : option V :=
  match o with
  | [] => None
  | (k', v) :: o' => if decide (k' = k) then Some v else obj_get o' k
  end.

Fixpoint obj_set (o : JsObject) (k : string) (v : V) : JsObject :=
  match o with
  | [] => [(k, v)]
  | (k', v') :: o' =>
      if decide (k' = k) then (k', v) :: o' else (k', v') :: obj_set o' k v
  end.

Fixpoint obj_delete (o : JsObject) (k : string) : JsObject :=
  match o with
  | [] => []
  | (k', v') :: o' =>
      if decide (k' = k) then obj_delete o' k else (k', v') :: obj_delete o' k
  end.

Definition Object_values (o : JsObject) : list V := o.*2.
Definition Object_keys (o : JsObject) : list string := o.*1.
End JsObject.
Global Arguments JsObject : clear implicits.

(** [BehaviorSubject<T>] of rxjs: the latest value, and the observers,
    each represented by the sequence of values delivered to it so far.
    [next] stores the value and delivers it to every observer;
    [subscribe] registers an observer and delivers the latest value to it
    at once. *)
Module BehaviorSubject.
Section Subject.
Context {T : Type}.

Record t : Type := mk {
  value : T;
  observers : list (list T)
}.

Definition new (v : T) : t := mk v [].

Definition next (v : T) (s : t) : t :=
  mk v ((λ inbox, inbox ++ [v]) <$> observers s).

Definition subscribe (s : t) : t :=
  mk (value s) (observers s ++ [[value s]]).
End Subject.
Global Arguments t : clear implicits.
End BehaviorSubject.

(** ** Collaborators

    The services injected into the two classes, and the browser.  They are
    outside the two classes; each is an interface here, and every property
    below holds for all implementations of it. *)

(** [ProfileApi.loadProfiles(npubs)]: the remote source.  [None] is a
    rejected promise (the fetch failed as a unit). *)
Class ProfileApi : Type := {
  api_loadProfiles : list TNostrPublic → option (list Event)
}.

(** [ProfileConverter.castPubkeyToNostrPublic(pubkey)]; [None] is a
    format error. *)
Class ProfileConverter : Type := {
  castPubkeyToNostrPublic : string → option TNostrPublic
}.

(** [new NostrUser(nsec)]; [None] is a format error of the raw secret. *)
Class NostrKeys : Type := {
  new_NostrUser : string → option NostrUser
}.

(** [ProfileEncrypt.encryptAccount(profile, pin)]; [None] is [null]. *)
Class ProfileEncrypt : Type := {
  encryptAccount :
    IProfile.t → option string → option IUnauthenticatedUser.t
}.

(** The browser: [JSON.stringify] and [JSON.parse] on the registry
    ([None] is a [SyntaxError]), and whether [localStorage.setItem]
    accepts a write in a given storage (it throws a
    [QuotaExceededError] when it does not). *)
Class Browser : Type := {
  JSON_stringify : JsObject IUnauthenticatedUser.t → string;
  JSON_parse : string → option (JsObject IUnauthenticatedUser.t);
  storage_accepts : gmap string string → string → string → bool
}.

(** ** State *)

(** The fields of the [NostrSecretStatefull] instance. *)
Record SecretStore : Type := mkSecretStore {
  accounts : JsObject IUnauthenticatedUser.t;
  accountsSubject : BehaviorSubject.t (list IUnauthenticatedUser.t)
}.

(** The state the two classes act on: the static map
    [ProfileCache.profiles], the calls received by the remote source so
    far (oldest first), the browser's [localStorage], and the singleton
    [NostrSecretStatefull] instance. *)
Record World : Type := mkWorld {
  profiles : gmap string IProfile.t;
  requests : list (list TNostrPublic);
  localStorage : gmap string string;
  secrets : SecretStore
}.

Definition set_profiles (f : gmap string IProfile.t → gmap string IProfile.t)
    (w : World) : World :=
  mkWorld (f (profiles w)) (requests w) (localStorage w) (secrets w).

Definition set_requests (f : list (list TNostrPublic) → list (list TNostrPublic))
    (w : World) : World :=
  mkWorld (profiles w) (f (requests w)) (localStorage w) (secrets w).

Definition set_localStorage (f : gmap string string → gmap string string)
    (w : World) : World :=
  mkWorld (profiles w) (requests w) (f (localStorage w)) (secrets w).

Definition set_secrets (f : SecretStore → SecretStore) (w : World) : World :=
  mkWorld (profiles w) (requests w) (localStorage w) (f (secrets w)).

(** ** Calls: state and exceptions *)

Inductive Error : Type :=
  | FetchError
  | LookupError (npub : TNostrPublic)
  | FormatError
  | TypeError
  | SyntaxError
  | QuotaExceededError.

Inductive Outcome (A : Type) : Type :=
  | Ok (a : A)
  | Throw (e : Error).
Global Arguments Ok {A} a.
Global Arguments Throw {A} e.

Definition M (A : Type) : Type := World → Outcome A * World.

Global Instance M_ret : MRet M := λ A a w, (Ok a, w).

Global Instance M_bind : MBind M := λ A B f m w,
  match m w with
  | (Ok a, w') => f a w'
  | (Throw e, w') => (Throw e, w')
  end.

Definition throw {A : Type} (e : Error) : M A := λ w, (Throw e, w).
Definition gets {A : Type} (f : World → A) : M A := λ w, (Ok (f w), w).
Definition modify (f : World → World) : M unit := λ w, (Ok tt, f w).

(** ** [NostrSecretStatefull] (nostr-secret.statefull.ts) *)

Module NostrSecretStatefull.
Section Methods.
Context `{!ProfileEncrypt, !Browser}.

(** The key of the registry blob in [localStorage]. *)
Definition STORAGE_KEY : string := "NostrSecretStatefull_accounts".

(** [localStorage.setItem(key, value)]. *)
Definition localStorage_setItem (key value : string) : M unit := λ w,
  if storage_accepts (localStorage w) key value
  then (Ok tt, set_localStorage (λ ls, <[key := value]> ls) w)
  else (Throw QuotaExceededError, w).

(** [stored || '{}']: [null] and the empty string are falsy. *)
Definition or_empty_object (stored : option string) : string :=
  match stored with
  | None => "{}"
  | Some s => if decide (s = "") then "{}" else s
  end.

(** The field initialisers (lines 10-12 and 26), which run before the
    body of the constructor, on the storage ([ls !! key] is
    [localStorage.getItem(key)], [None] being [null]):
    [accounts = JSON.parse(localStorage.getItem(KEY) || '{}')] and
    [accountsSubject = new BehaviorSubject(Object.values(this.accounts))]. *)
Definition init_fields (ls : gmap string string) : Outcome SecretStore :=
  match JSON_parse (or_empty_object (ls !! STORAGE_KEY)) with
  | None => Throw SyntaxError
  | Some parsed =>
      Ok (mkSecretStore parsed (BehaviorSubject.new (Object_values parsed)))
  end.

(** The constructor (lines 16-24), on the static field [instance] and the
    storage: the new object becomes the instance when there is none, and
    the constructor returns the instance.  The result is the returned
    object and the static field after the call. *)
Definition constructor (instance : option SecretStore)
    (ls : gmap string string) : Outcome (SecretStore * option SecretStore) :=
  match init_fields ls with
  | Throw e => Throw e
  | Ok this =>
      match instance with
      | None => Ok (this, Some this)
      | Some existing => Ok (existing, Some existing)
      end
  end.

(** [accounts$ = accountsSubject.asObservable()]: a subscription to
    [accounts$] is a subscription to the subject. *)
Definition accounts_subscribe : M unit :=
  modify (set_secrets (λ st,
    mkSecretStore (accounts st) (BehaviorSubject.subscribe (accountsSubject st)))).

Definition createAccount (profile : IProfile.t) (pin : option string)
    : M (option IUnauthenticatedUser.t) :=
  let unauthenticated := encryptAccount profile pin in
  match unauthenticated with
  | None => mret None
  | Some account => mret (Some account)
  end.

Definition update : M unit :=
  this_accounts ← gets (λ w, accounts (secrets w));
  localStorage_setItem STORAGE_KEY (JSON_stringify this_accounts);;
  modify (set_secrets (λ st,
    mkSecretStore (accounts st)
      (BehaviorSubject.next (Object_values (accounts st)) (accountsSubject st)))).

Definition addAccount (unauthenticated : IUnauthenticatedUser.t) : M unit :=
  modify (set_secrets (λ st,
    mkSecretStore
      (obj_set (accounts st) (IUnauthenticatedUser.npub unauthenticated) unauthenticated)
      (accountsSubject st)));;
  update.

Definition removeAccount (profile : IUnauthenticatedUser.t) : M unit :=
  modify (set_secrets (λ st,
    mkSecretStore
      (obj_delete (accounts st) (IUnauthenticatedUser.npub profile))
      (accountsSubject st)));;
  update.

End Methods.
End NostrSecretStatefull.

(** ** [ProfileCache] (profile.cache.ts) *)

Module ProfileCache.

(** Modelled from the spec: the cast of a raw record into a profile.  A
    record fetched by [forceProfileReload] is cached as [EAGER_LOADED]. *)
Definition castEvent (e : Event) : IProfile.t :=
  IProfile.mk (author e) (content_name e) (content_about e)
    (content_picture e) None EAGER_LOADED.

(** Modelled from the spec: load states only move forward, and
    [EAGER_LOADED] is sticky. *)
Definition merge_load (old new : DataLoadType) : DataLoadType :=
  match old, new with
  | EAGER_LOADED, _ => EAGER_LOADED
  | LAZY_LOADED, UNRESOLVED => LAZY_LOADED
  | _, _ => new
  end.

(** Modelled from the spec: the upsert of a cast profile.  A present
    entry is mutated in place: the display fields are overwritten, the
    identifier and the attached user handle stay. *)
Definition upsert (ps : gmap string IProfile.t) (p : IProfile.t)
    : gmap string IProfile.t :=
  match ps !! IProfile.npub p with
  | None => <[IProfile.npub p := p]> ps
  | Some old =>
      <[IProfile.npub p :=
          IProfile.mk (IProfile.npub old) (IProfile.name p) (IProfile.bio p)
            (IProfile.image p) (IProfile.user old)
            (merge_load (IProfile.load old) (IProfile.load p))]> ps
  end.

(** Modelled from the spec: [cache(records)] of raw remote records, the
    overload [forceProfileReload] calls. *)
Definition cache (events : list Event) : M unit :=
  modify (set_profiles (λ ps, foldl upsert ps (castEvent <$> events))).

(** Modelled from the spec: [get(identifier)] returns the cached profile
    object, and signals a lookup error for an identifier never seen. *)
Definition get (npub : TNostrPublic) : M ProfileRef := λ w,
  match profiles w !! npub with
  | Some _ => (Ok (ProfileAt npub), w)
  | None => (Throw (LookupError npub), w)
  end.

(** Modelled from the spec: [isEagerLoaded(identifier)] is true iff the
    entry exists and its load state is [EAGER_LOADED]. *)
Definition isEagerLoaded (ps : gmap string IProfile.t) (npub : TNostrPublic)
    : bool :=
  match ps !! npub with
  | Some p => bool_decide (IProfile.load p = EAGER_LOADED)
  | None => false
  end.

End ProfileCache.

(** ** [ProfileProxy] (profile.proxy.ts) *)

Module ProfileProxy.
Section Methods.
Context `{!ProfileApi, !ProfileConverter, !NostrKeys, !ProfileEncrypt, !Browser}.

(** [await this.profileApi.loadProfiles(npubs)]: the call reaches the
    remote source, then resolves or rejects. *)
Definition profileApi_loadProfiles (npubs : list TNostrPublic)
    : M (list Event) := λ w,
  let w' := set_requests (λ log, log ++ [npubs]) w in
  match api_loadProfiles npubs with
  | Some events => (Ok events, w')
  | None => (Throw FetchError, w')
  end.

(** [get(npubs: string)]; the overload on arrays maps it over the array. *)
Definition get (npubs : TNostrPublic) : M ProfileRef :=
  ProfileCache.get npubs.

(** [cache(profiles: Event<NostrEventKind>[])]. *)
Definition cache (profiles : list Event) : M unit :=
  ProfileCache.cache profiles.

Definition forceProfileReload (npubs : list TNostrPublic)
    : M (list ProfileRef) :=
  events ← profileApi_loadProfiles npubs;
  ProfileCache.cache events;;
  mapM ProfileCache.get npubs.

Definition loadProfiles (npubss : list (list TNostrPublic))
    : M (list ProfileRef) :=
  let npubs := Set_spread (concat npubss) in
  cached ← gets profiles;
  let notLoaded :=
    List.filter (λ npub, negb (ProfileCache.isEagerLoaded cached npub)) npubs in
  forceProfileReload notLoaded.

(** [npubs[0]] is [undefined] ([None]) on an empty array. *)
Definition loadProfile (npub : TNostrPublic) : M (option ProfileRef) :=
  npubs ← loadProfiles [[npub]];
  mret (npubs !! 0%nat).

(** [load(npubs: string)]: the branch [typeof npubs === 'string']. *)
Definition load_string (npubs : TNostrPublic) : M (option ProfileRef) :=
  indexedProfile ← gets (λ w, profiles w !! npubs);
  match indexedProfile with
  | None => loadProfile npubs
  | Some p =>
      if decide (IProfile.load p = LAZY_LOADED)
      then loadProfile npubs
      else mret (Some (ProfileAt npubs))
  end.

(** [load(npubs: string | string[])]. *)
Definition load (npubs : TNostrPublic + list TNostrPublic)
    : M (option ProfileRef + list ProfileRef) :=
  match npubs with
  | inl npub => profile ← load_string npub; mret (inl profile)
  | inr npubs => loaded ← loadProfiles [npubs]; mret (inr loaded)
  end.

Definition loadFromPubKey (pubkey : string) : M (option ProfileRef) :=
  match castPubkeyToNostrPublic pubkey with
  | None => throw FormatError
  | Some npub => loadProfile npub
  end.

(** [profile.user = user]: an assignment through the reference, which
    mutates the cached object and yields its fields after the
    assignment.  On [undefined] the assignment throws a [TypeError]. *)
Definition assign_user (profile : option ProfileRef) (user : NostrUser)
    : M IProfile.t := λ w,
  match profile with
  | None => (Throw TypeError, w)
  | Some ref =>
      match profiles w !! ref_key ref with
      | None => (Throw TypeError, w)
      | Some p =>
          let p' := IProfile.set_user user p in
          (Ok p', set_profiles (λ ps, <[ref_key ref := p']> ps) w)
      end
  end.

Definition loadAccount (nsec pin : string)
    : M (option IUnauthenticatedUser.t) :=
  match new_NostrUser nsec with
  | None => throw FormatError
  | Some user =>
      profile ← load_string (nostrPublic user);
      profile' ← assign_user profile user;
      account ← NostrSecretStatefull.createAccount profile' (Some pin);
      mret account
  end.

End Methods.
End ProfileProxy.

(** ** Stand-ins for the collaborators

    Concrete implementations of the interfaces above, for the scenarios
    the properties are run on. *)

Module Doubles.

(** A remote source that answers every requested identifier. *)
Definition answering_api : ProfileApi :=
  {| api_loadProfiles := λ npubs,
       Some ((λ npub, mkEvent npub ("name of " +:+ npub) "" "") <$> npubs) |}.

(** A remote source whose fetch fails. *)
Definition failing_api : ProfileApi :=
  {| api_loadProfiles := λ _, None |}.

Definition prefix_converter : ProfileConverter :=
  {| castPubkeyToNostrPublic := λ pubkey, Some ("npub1" +:+ pubkey) |}.

Definition prefix_keys : NostrKeys :=
  {| new_NostrUser := λ nsec, Some (mkNostrUser nsec ("npub1" +:+ nsec)) |}.

(** An encryption that produces an account for every profile. *)
Definition sealing_encrypt : ProfileEncrypt :=
  {| encryptAccount := λ profile pin,
       Some (IUnauthenticatedUser.mk (IProfile.npub profile)
               (Some ("enc(" +:+ IProfile.npub profile +:+ ")"))) |}.

(** An encryption that cannot produce an account. *)
Definition refusing_encrypt : ProfileEncrypt :=
  {| encryptAccount := λ _ _, None |}.

(** JSON text of the registry: an object of objects with the string
    fields [npub] and [nsecEncrypted]; in strings the double quote and
    the backslash are escaped. *)
Definition dquote : ascii := ascii_of_nat 34.
Definition backslash : ascii := ascii_of_nat 92.

Fixpoint escape (s : string) : string :=
  match s with
  | EmptyString => EmptyString
  | String c rest =>
      if decide (c = dquote ∨ c = backslash)
      then String backslash (String c (escape rest))
      else String c (escape rest)
  end.

Definition quoted (s : string) : string :=
  String dquote (escape s +:+ String dquote EmptyString).

Definition stringify_account (a : IUnauthenticatedUser.t) : string :=
  "{" +:+ quoted "npub" +:+ ":" +:+ quoted (IUnauthenticatedUser.npub a) +:+
  match IUnauthenticatedUser.nsecEncrypted a with
  | Some secret => "," +:+ quoted "nsecEncrypted" +:+ ":" +:+ quoted secret
  | None => ""
  end +:+ "}".

Fixpoint stringify_entries (o : JsObject IUnauthenticatedUser.t) : string :=
  match o with
  | [] => ""
  | [(k, a)] => quoted k +:+ ":" +:+ stringify_account a
  | (k, a) :: o' =>
      quoted k +:+ ":" +:+ stringify_account a +:+ "," +:+ stringify_entries o'
  end.

Definition stringify (o : JsObject IUnauthenticatedUser.t) : string :=
  "{" +:+ stringify_entries o +:+ "}".

(** Reading: each reader consumes a prefix of the text and returns what
    it read with the rest of the text. *)
Fixpoint expect (token text : string) : option string :=
  match token, text with
  | EmptyString, _ => Some text
  | String c token', String d text' =>
      if decide (c = d) then expect token' text' else None
  | String _ _, EmptyString => None
  end.

Fixpoint read_chars (text : string) : option (string * string) :=
  match text with
  | EmptyString => None
  | String c rest =>
      if decide (c = dquote) then Some (EmptyString, rest)
      else if decide (c = backslash) then
        match rest with
        | EmptyString => None
        | String d rest' =>
            '(s, after) ← read_chars rest'; Some (String d s, after)
        end
      else '(s, after) ← read_chars rest; Some (String c s, after)
  end.

Definition read_string (text : string) : option (string * string) :=
  match text with
  | String c rest => if decide (c = dquote) then read_chars rest else None
  | EmptyString => None
  end.

Definition read_account (text : string)
    : option (IUnauthenticatedUser.t * string) :=
  text ← expect ("{" +:+ quoted "npub" +:+ ":") text;
  '(npub, text) ← read_string text;
  match expect "}" text with
  | Some text => Some (IUnauthenticatedUser.mk npub None, text)
  | None =>
      text ← expect ("," +:+ quoted "nsecEncrypted" +:+ ":") text;
      '(secret, text) ← read_string text;
      text ← expect "}" text;
      Some (IUnauthenticatedUser.mk npub (Some secret), text)
  end.

Fixpoint read_entries (fuel : nat) (o : JsObject IUnauthenticatedUser.t)
    (text : string) : option (JsObject IUnauthenticatedUser.t * string) :=
  match fuel with
  | O => None
  | S fuel' =>
      '(k, text) ← read_string text;
      text ← expect ":" text;
      '(a, text) ← read_account text;
      let o' := obj_set o k a in
      match expect "," text with
      | Some text => read_entries fuel' o' text
      | None => text ← expect "}" text; Some (o', text)
      end
  end.

Definition parse (text : string) : option (JsObject IUnauthenticatedUser.t) :=
  match expect "{}" text with
  | Some EmptyString => Some []
  | Some _ => None
  | None =>
      text' ← expect "{" text;
      '(o, rest) ← read_entries (String.length text) [] text';
      if decide (rest = "") then Some o else None
  end.

(** The size of a storage: the lengths of its keys and values. *)
Definition storage_size (ls : gmap string string) : nat :=
  map_fold (λ k v n, String.length k + String.length v + n)%nat 0%nat ls.

(** A browser whose storage holds at most [quota] characters. *)
Definition browser (quota : nat) : Browser :=
  {| JSON_stringify := stringify;
     JSON_parse := parse;
     storage_accepts := λ ls key value,
       bool_decide (storage_size (<[key := value]> ls) ≤ quota)%nat |}.

Definition alice : IUnauthenticatedUser.t :=
  IUnauthenticatedUser.mk "npub1alice" (Some "enc(alice)").
Definition bob : IUnauthenticatedUser.t :=
  IUnauthenticatedUser.mk "npub1bob" None.

Definition empty_store : SecretStore :=
  mkSecretStore [] (BehaviorSubject.new []).

(** Nothing cached, nothing fetched, nothing stored. *)
Definition empty_world : World := mkWorld ∅ [] ∅ empty_store.

Definition profile_of (npub : TNostrPublic) (state : DataLoadType)
    : IProfile.t :=
  IProfile.mk npub ("cached " +:+ npub) "" "" None state.

(** A world whose cache holds [p1], eagerly loaded. *)
Definition p1_eager_world : World :=
  mkWorld {[ "p1" := profile_of "p1" EAGER_LOADED ]} [] ∅ empty_store.

(** A world whose registry holds [alice], watched by one observer that
    subscribed when the registry was empty. *)
Definition watched_world : World :=
  mkWorld ∅ [] ∅
    (mkSecretStore [("npub1alice", alice)]
       (BehaviorSubject.mk [alice] [[[]; [alice]]])).

(** A converter and a key derivation that refuse every input. *)
Definition refusing_converter : ProfileConverter :=
  {| castPubkeyToNostrPublic := λ _, None |}.

Definition refusing_keys : NostrKeys :=
  {| new_NostrUser := λ _, None |}.


(** A world whose cache holds [p1], lazily loaded. *)
Definition p1_lazy_world : World :=
  mkWorld {[ "p1" := profile_of "p1" LAZY_LOADED ]} [] ∅ empty_store.

End Doubles.


(** ** Vocabulary of the properties *)

(** The identifiers [loadProfiles] hands to [forceProfileReload]: the
    value of [notLoaded] for the cache [cached] and the batches [npubss]. *)
Definition to_fetch (cached : gmap string IProfile.t)
    (npubss : list (list TNostrPublic)) : list TNostrPublic :=
  List.filter (λ npub, negb (ProfileCache.isEagerLoaded cached npub))
    (Set_spread (concat npubss)).

(** The de-duplicated union of the batches, in union order. *)
Definition requested (npubss : list (list TNostrPublic)) : list TNostrPublic :=
  Set_spread (concat npubss).

(** The browser refuses (accepts) the write of the registry [o]. *)
Definition refused `{!Browser} (ls : gmap string string)
    (o : JsObject IUnauthenticatedUser.t) : Prop :=
  storage_accepts ls NostrSecretStatefull.STORAGE_KEY (JSON_stringify o) = false.

Definition accepted `{!Browser} (ls : gmap string string)
    (o : JsObject IUnauthenticatedUser.t) : Prop :=
  storage_accepts ls NostrSecretStatefull.STORAGE_KEY (JSON_stringify o) = true.

(** The latest value of the accounts stream is the current account list. *)
Definition published_current (st : SecretStore) : Prop :=
  BehaviorSubject.value (accountsSubject st) = Object_values (accounts st).

(** A well-formed registry: no identifier has two entries, and every
    entry is stored under the identifier of its account. *)
Definition registry_wf (o : JsObject IUnauthenticatedUser.t) : Prop :=
  NoDup (Object_keys o) ∧
  Forall (λ entry, entry.1 = IUnauthenticatedUser.npub entry.2) o.

(** The cached profile a reference points to. *)
Definition deref (w : World) (ref : ProfileRef) : option IProfile.t :=
  profiles w !! ref_key ref.

(** * Properties *)

(** ** Running a call *)

Lemma bind_run {A B : Type} (m : M A) (f : A → M B) (w : World) :
  (m ≫= f) w =
    match m w with
    | (Ok a, w') => f a w'
    | (Throw e, w') => (Throw e, w')
    end.
Proof. reflexivity. Qed.

Lemma ret_run {A : Type} (a : A) (w : World) :
  (mret a : M A) w = (Ok a, w).
Proof. reflexivity. Qed.

Ltac run :=
  repeat first
    [ rewrite bind_run
    | rewrite ret_run
    | progress unfold gets, modify, throw
    | progress cbn [fst snd] ].

(** ** The spread of a [Set] *)

Lemma foldl_Set_add_NoDup (xs acc : list string) :
  NoDup acc → NoDup (foldl Set_add acc xs).
Proof.
  revert acc. induction xs as [|x xs IH]; intros acc Hacc; simpl; [done|].
  apply IH. unfold Set_add. case_decide; [done|].
  apply NoDup_app. split_and!; [done| |apply NoDup_singleton].
  intros y Hy Hy'. apply list_elem_of_singleton in Hy'. by subst.
Qed.

Lemma elem_of_foldl_Set_add (xs acc : list string) (y : string) :
  y ∈ foldl Set_add acc xs ↔ y ∈ acc ∨ y ∈ xs.
Proof.
  revert acc. induction xs as [|x xs IH]; intros acc; simpl.
  - rewrite elem_of_nil. tauto.
  - rewrite IH, elem_of_cons. unfold Set_add. case_decide.
    + split; [tauto|]. intros [?|[->|?]]; tauto.
    + rewrite elem_of_app, list_elem_of_singleton. tauto.
Qed.

Lemma Set_spread_NoDup (xs : list string) : NoDup (Set_spread xs).
Proof. apply foldl_Set_add_NoDup, NoDup_nil_2. Qed.

Lemma elem_of_Set_spread (xs : list string) (y : string) :
  y ∈ Set_spread xs ↔ y ∈ xs.
Proof.
  unfold Set_spread. rewrite elem_of_foldl_Set_add, elem_of_nil. tauto.
Qed.

Lemma foldl_Set_add_fresh (xs acc : list string) :
  NoDup (acc ++ xs) → foldl Set_add acc xs = acc ++ xs.
Proof.
  revert acc. induction xs as [|x xs IH]; intros acc Hnd; simpl.
  - by rewrite app_nil_r.
  - unfold Set_add. apply NoDup_app in Hnd as (Hacc & Hdisj & Hxs).
    case_decide as Hin.
    + exfalso. apply (Hdisj x Hin). left.
    + rewrite IH, <- app_assoc; [done|].
      rewrite <- app_assoc. simpl. apply NoDup_app. done.
Qed.

(** On a list without repetitions the spread is the list itself. *)
Lemma Set_spread_id (xs : list string) : NoDup xs → Set_spread xs = xs.
Proof. intros Hnd. unfold Set_spread. by rewrite foldl_Set_add_fresh. Qed.

Lemma to_fetch_NoDup cached npubss : NoDup (to_fetch cached npubss).
Proof.
  unfold to_fetch. apply NoDup_ListNoDup, List.NoDup_filter, NoDup_ListNoDup.
  apply Set_spread_NoDup.
Qed.

Lemma elem_of_to_fetch cached npubss (npub : string) :
  npub ∈ to_fetch cached npubss ↔
  npub ∈ concat npubss ∧ ProfileCache.isEagerLoaded cached npub = false.
Proof.
  unfold to_fetch. rewrite list_elem_of_In, List.filter_In, <- list_elem_of_In.
  rewrite elem_of_Set_spread, negb_true_iff. done.
Qed.

Lemma to_fetch_all_eager cached npubss :
  (∀ npub, npub ∈ concat npubss → ProfileCache.isEagerLoaded cached npub = true) →
  to_fetch cached npubss = [].
Proof.
  intros Hall. destruct (to_fetch cached npubss) as [|x l] eqn:E; [done|].
  assert (x ∈ to_fetch cached npubss) as Hx by (rewrite E; left).
  apply elem_of_to_fetch in Hx as [Hx Hne]. rewrite (Hall x Hx) in Hne. done.
Qed.

(** ** The orchestrator *)

Section Orchestrator.
Context {api : ProfileApi} {converter : ProfileConverter} {keys : NostrKeys}
  {encrypt : ProfileEncrypt} {browser : Browser}.

Import ProfileProxy.

(** Reading the cache for a list of identifiers changes nothing, and
    resolves exactly when every identifier is cached. *)
Lemma mapM_get_cons (k : TNostrPublic) (npubs : list TNostrPublic) (w : World) :
  mapM ProfileCache.get (k :: npubs) w =
    match profiles w !! k with
    | None => (Throw (LookupError k), w)
    | Some _ =>
        match mapM ProfileCache.get npubs w with
        | (Ok refs, w') => (Ok (ProfileAt k :: refs), w')
        | (Throw e, w') => (Throw e, w')
        end
    end.
Proof.
  cbn [mapM]. rewrite bind_run. unfold ProfileCache.get at 1.
  destruct (profiles w !! k); [|done]. rewrite bind_run.
  by destruct (mapM ProfileCache.get npubs w) as [[refs|e] w'].
Qed.

Lemma mapM_get_state (npubs : list TNostrPublic) (w : World) :
  (mapM ProfileCache.get npubs w).2 = w.
Proof.
  induction npubs as [|k npubs IH]; [done|].
  rewrite mapM_get_cons. destruct (profiles w !! k); [|done].
  by destruct (mapM ProfileCache.get npubs w) as [[refs|e] w'].
Qed.

Lemma mapM_get_Ok (npubs : list TNostrPublic) (w : World) :
  (∀ npub, npub ∈ npubs → is_Some (profiles w !! npub)) →
  mapM ProfileCache.get npubs w = (Ok (ProfileAt <$> npubs), w).
Proof.
  induction npubs as [|k npubs IH]; intros Hall; [done|].
  rewrite mapM_get_cons. destruct (Hall k) as [p ->]; [left|].
  rewrite IH; [done|]. intros npub Hin. apply Hall. by right.
Qed.

Lemma mapM_get_inv (npubs : list TNostrPublic) (w w' : World)
    (refs : list ProfileRef) :
  mapM ProfileCache.get npubs w = (Ok refs, w') →
  refs = ProfileAt <$> npubs ∧ w' = w ∧
  ∀ npub, npub ∈ npubs → is_Some (profiles w !! npub).
Proof.
  revert refs. induction npubs as [|k npubs IH]; intros refs.
  - cbn. intros [= <- <-]. split_and!; [done..|]. by intros ? ?%elem_of_nil.
  - rewrite mapM_get_cons.
    destruct (profiles w !! k) as [p|] eqn:Hk; [|done].
    destruct (mapM ProfileCache.get npubs w) as [[rs|e] w1] eqn:E; [|done].
    intros [= <- <-]. destruct (IH rs eq_refl) as (-> & -> & Hall).
    split_and!; [done..|]. intros npub [->|Hin]%elem_of_cons; eauto.
Qed.

(** The two outcomes of a forced reload. *)
Lemma forceProfileReload_rejected (npubs : list TNostrPublic) (w : World) :
  api_loadProfiles npubs = None →
  forceProfileReload npubs w =
    (Throw FetchError, set_requests (λ log, log ++ [npubs]) w).
Proof.
  intros Hfail. unfold forceProfileReload, profileApi_loadProfiles. run.
  by rewrite Hfail.
Qed.

Lemma forceProfileReload_resolved (npubs : list TNostrPublic)
    (events : list Event) (w : World) :
  api_loadProfiles npubs = Some events →
  forceProfileReload npubs w =
    mapM ProfileCache.get npubs
      (set_profiles (λ ps, foldl ProfileCache.upsert ps (ProfileCache.castEvent <$> events))
         (set_requests (λ log, log ++ [npubs]) w)).
Proof.
  intros Hok. unfold forceProfileReload, profileApi_loadProfiles. run.
  rewrite Hok. done.
Qed.

Lemma forceProfileReload_requests (npubs : list TNostrPublic) (w : World) :
  requests (forceProfileReload npubs w).2 = requests w ++ [npubs].
Proof.
  destruct (api_loadProfiles npubs) as [events|] eqn:E.
  - rewrite (forceProfileReload_resolved _ _ _ E), mapM_get_state. done.
  - rewrite (forceProfileReload_rejected _ _ E). done.
Qed.

Lemma forceProfileReload_frame (npubs : list TNostrPublic) (w : World) :
  localStorage (forceProfileReload npubs w).2 = localStorage w ∧
  secrets (forceProfileReload npubs w).2 = secrets w.
Proof.
  destruct (api_loadProfiles npubs) as [events|] eqn:E.
  - rewrite (forceProfileReload_resolved _ _ _ E), mapM_get_state. done.
  - rewrite (forceProfileReload_rejected _ _ E). done.
Qed.

(** A forced reload that resolves returns the references of exactly the
    identifiers it was given, in order, all cached. *)
Lemma forceProfileReload_inv (npubs : list TNostrPublic) (w w' : World)
    (refs : list ProfileRef) :
  forceProfileReload npubs w = (Ok refs, w') →
  refs = ProfileAt <$> npubs ∧
  ∀ npub, npub ∈ npubs → is_Some (profiles w' !! npub).
Proof.
  destruct (api_loadProfiles npubs) as [events|] eqn:E.
  - rewrite (forceProfileReload_resolved _ _ _ E).
    intros (-> & -> & Hall)%mapM_get_inv. done.
  - by rewrite (forceProfileReload_rejected _ _ E).
Qed.

Lemma loadProfiles_unfold (npubss : list (list TNostrPublic)) (w : World) :
  loadProfiles npubss w = forceProfileReload (to_fetch (profiles w) npubss) w.
Proof. reflexivity. Qed.

(** Whenever [loadProfiles] resolves, its array holds the references of
    the identifiers it fetched: the requested ones that were not
    [EAGER_LOADED]. *)
Lemma loadProfiles_inv (npubss : list (list TNostrPublic)) (w w' : World)
    (refs : list ProfileRef) :
  loadProfiles npubss w = (Ok refs, w') →
  refs = ProfileAt <$> to_fetch (profiles w) npubss.
Proof. rewrite loadProfiles_unfold. by intros [-> _]%forceProfileReload_inv. Qed.

(** C2.  Every call of [loadProfiles] reaches the remote source exactly
    once, with a list in which no identifier occurs twice, whatever the
    batches repeat; the list holds requested identifiers only.  For the
    batch [[X, X]] the one fetch is for [[X]] (and for no identifier when
    [X] is already [EAGER_LOADED]). *)
Theorem loadProfiles_fetches_each_identifier_once
    (npubss : list (list TNostrPublic)) (w : World) :
  ∃ fetched : list TNostrPublic,
    requests (loadProfiles npubss w).2 = requests w ++ [fetched] ∧
    NoDup fetched ∧
    (∀ npub, npub ∈ fetched → npub ∈ concat npubss) ∧
    ∀ X : TNostrPublic,
      requests (loadProfiles [[X; X]] w).2 =
        requests w ++
          [if ProfileCache.isEagerLoaded (profiles w) X then [] else [X]].
Proof.
  exists (to_fetch (profiles w) npubss).
  rewrite loadProfiles_unfold, forceProfileReload_requests.
  split_and!; [done|apply to_fetch_NoDup| |].
  - by intros npub [? _]%elem_of_to_fetch.
  - intros X. rewrite loadProfiles_unfold, forceProfileReload_requests.
    do 2 f_equal. unfold to_fetch, Set_spread, Set_add. simpl.
    rewrite decide_True by left. simpl.
    by destruct (ProfileCache.isEagerLoaded (profiles w) X).
Qed.

(** C4.  When the remote fetch of [forceProfileReload] fails, the call
    rejects with the fetch error and the state after it differs from the
    state before only by the record of the request: the profile cache is
    the same map, so nothing was cached, absent identifiers are still
    absent and cached entries are as they were.  [loadProfiles] fails in
    the same way when the fetch of its identifiers fails. *)
Theorem fetch_failure_leaves_cache_untouched
    (npubs : list TNostrPublic) (w : World) :
  api_loadProfiles npubs = None →
  forceProfileReload npubs w =
    (Throw FetchError, set_requests (λ log, log ++ [npubs]) w) ∧
  profiles (forceProfileReload npubs w).2 = profiles w ∧
  localStorage (forceProfileReload npubs w).2 = localStorage w ∧
  secrets (forceProfileReload npubs w).2 = secrets w ∧
  ∀ npubss : list (list TNostrPublic),
    to_fetch (profiles w) npubss = npubs →
    loadProfiles npubss w =
      (Throw FetchError, set_requests (λ log, log ++ [npubs]) w) ∧
    profiles (loadProfiles npubss w).2 = profiles w.
Proof.
  intros Hfail. rewrite (forceProfileReload_rejected _ _ Hfail).
  split_and!; [done..|]. intros npubss <-.
  by rewrite loadProfiles_unfold, (forceProfileReload_rejected _ _ Hfail).
Qed.

(** C9.  [loadProfiles] reaches the remote source exactly once on every
    call.  When every requested identifier is [EAGER_LOADED], that one
    call carries the empty identifier list, and the result follows the
    remote's answer to it: the empty array when it resolves, the fetch
    error when it rejects; so for an [EAGER_LOADED] [X], [load([X])]
    resolves to the empty array and [loadProfile(X)] to [undefined], not
    to the cached profile. *)
Theorem loadProfiles_all_eager_fetches_nothing
    (npubss : list (list TNostrPublic)) (w : World) :
  (∃ fetched, requests (loadProfiles npubss w).2 = requests w ++ [fetched]) ∧
  ((∀ npub, npub ∈ concat npubss →
      ProfileCache.isEagerLoaded (profiles w) npub = true) →
   requests (loadProfiles npubss w).2 = requests w ++ [[]] ∧
   (loadProfiles npubss w).1 =
     match api_loadProfiles [] with
     | Some _ => Ok []
     | None => Throw FetchError
     end) ∧
  (∀ X : TNostrPublic,
     ProfileCache.isEagerLoaded (profiles w) X = true →
     requests (load (inr [X]) w).2 = requests w ++ [[]] ∧
     (load (inr [X]) w).1 =
       match api_loadProfiles [] with
       | Some _ => Ok (inr [])
       | None => Throw FetchError
       end ∧
     requests (loadProfile X w).2 = requests w ++ [[]] ∧
     (loadProfile X w).1 =
       match api_loadProfiles [] with
       | Some _ => Ok None
       | None => Throw FetchError
       end).
Proof.
  assert (∀ batches,
    (∀ npub, npub ∈ concat batches →
       ProfileCache.isEagerLoaded (profiles w) npub = true) →
    requests (loadProfiles batches w).2 = requests w ++ [[]] ∧
    (loadProfiles batches w).1 =
      match api_loadProfiles [] with
      | Some _ => Ok []
      | None => Throw FetchError
      end) as Hempty.
  { intros batches Hall. pose proof (to_fetch_all_eager _ _ Hall) as Hnone.
    rewrite loadProfiles_unfold, forceProfileReload_requests, Hnone.
    split; [done|]. destruct (api_loadProfiles []) as [events|] eqn:E.
    - by rewrite (forceProfileReload_resolved _ _ _ E).
    - by rewrite (forceProfileReload_rejected _ _ E). }
  split_and!.
  - eexists. by rewrite loadProfiles_unfold, forceProfileReload_requests.
  - apply Hempty.
  - intros X Heager. destruct (Hempty [[X]]) as [Hreq Hres].
    { simpl. by intros npub ->%list_elem_of_singleton. }
    unfold load, loadProfile. rewrite !bind_run.
    destruct (loadProfiles [[X]] w) as [[refs|e] w'] eqn:E;
      cbn [fst snd] in *; destruct (api_loadProfiles []);
      by simplify_eq.
Qed.

(** What a resolved [loadProfiles] returns, against what was requested:
    the references of the requested identifiers in union order when none
    of them is [EAGER_LOADED]; no reference to an [EAGER_LOADED] one. *)
Lemma loadProfiles_of_unloaded (npubss : list (list TNostrPublic))
    (w w' : World) (refs : list ProfileRef) :
  (∀ npub, npub ∈ concat npubss →
     ProfileCache.isEagerLoaded (profiles w) npub = false) →
  loadProfiles npubss w = (Ok refs, w') →
  refs = ProfileAt <$> requested npubss.
Proof.
  intros Hnone ->%loadProfiles_inv. f_equal. unfold to_fetch, requested.
  apply List.forallb_filter_id, List.forallb_forall.
  intros npub Hin%list_elem_of_In. rewrite elem_of_Set_spread in Hin.
  by rewrite (Hnone npub Hin).
Qed.

Lemma loadProfiles_omits_eager_loaded (npubss : list (list TNostrPublic))
    (w w' : World) (refs : list ProfileRef) (X : TNostrPublic) :
  ProfileCache.isEagerLoaded (profiles w) X = true →
  loadProfiles npubss w = (Ok refs, w') →
  ProfileAt X ∉ refs.
Proof.
  intros Heager ->%loadProfiles_inv (k & [= <-] & Hk)%list_elem_of_fmap.
  apply elem_of_to_fetch in Hk as [_ Hk]. congruence.
Qed.

(** An [EAGER_LOADED] identifier is in no list handed to the remote
    source by [loadProfiles]. *)
Lemma loadProfiles_never_fetches_eager_loaded
    (npubss : list (list TNostrPublic)) (w : World) (X : TNostrPublic) :
  ProfileCache.isEagerLoaded (profiles w) X = true →
  ∃ fetched,
    requests (loadProfiles npubss w).2 = requests w ++ [fetched] ∧
    X ∉ fetched.
Proof.
  intros Heager. exists (to_fetch (profiles w) npubss).
  rewrite loadProfiles_unfold, forceProfileReload_requests. split; [done|].
  intros [_ Hk]%elem_of_to_fetch. congruence.
Qed.

(** The single-identifier [load] of an [EAGER_LOADED] identifier: the
    cached object is returned and the state is the state before; the
    remote source is not reached. *)
Lemma load_string_eager_loaded (X : TNostrPublic) (w : World) :
  ProfileCache.isEagerLoaded (profiles w) X = true →
  load_string X w = (Ok (Some (ProfileAt X)), w).
Proof.
  unfold ProfileCache.isEagerLoaded, load_string. run.
  destruct (profiles w !! X) as [p|]; [|done].
  intros Hload%bool_decide_eq_true. rewrite Hload.
  by rewrite decide_False.
Qed.

Lemma loadProfile_inv (npub : TNostrPublic) (w w1 : World) (ref : ProfileRef) :
  loadProfile npub w = (Ok (Some ref), w1) →
  ref = ProfileAt npub ∧ is_Some (profiles w1 !! npub) ∧
  localStorage w1 = localStorage w ∧ secrets w1 = secrets w.
Proof.
  unfold loadProfile. run.
  destruct (loadProfiles [[npub]] w) as [[refs|e] w'] eqn:E; [|done].
  intros [= Href <-].
  pose proof (forceProfileReload_frame (to_fetch (profiles w) [[npub]]) w)
    as Hframe.
  rewrite loadProfiles_unfold in E. rewrite E in Hframe.
  apply forceProfileReload_inv in E as [-> Hcached].
  apply list_elem_of_lookup_2, list_elem_of_fmap in Href as (k & -> & Hk).
  pose proof (Hcached k Hk) as Hsome.
  apply elem_of_to_fetch in Hk as [Hk _]. simpl in Hk.
  apply list_elem_of_singleton in Hk as ->. by destruct Hframe.
Qed.

(** A reference returned by the single-identifier [load] is the
    reference of the cached object of that identifier, and the account
    store is not touched. *)
Lemma load_string_inv (npub : TNostrPublic) (w w1 : World) (ref : ProfileRef) :
  load_string npub w = (Ok (Some ref), w1) →
  ref = ProfileAt npub ∧ is_Some (profiles w1 !! npub) ∧
  localStorage w1 = localStorage w ∧ secrets w1 = secrets w.
Proof.
  unfold load_string. run.
  destruct (profiles w !! npub) as [p|] eqn:Hp;
    [case_decide|]; try apply loadProfile_inv.
  intros [= <- <-]. rewrite Hp. eauto.
Qed.

Lemma to_fetch_singleton_unloaded (cached : gmap string IProfile.t)
    (npub : TNostrPublic) :
  ProfileCache.isEagerLoaded cached npub = false →
  to_fetch cached [[npub]] = [npub].
Proof.
  intros Hno. unfold to_fetch, Set_spread, Set_add. simpl. by rewrite Hno.
Qed.

(** The guard of the single-identifier [load] keeps [undefined] away: it
    reloads only identifiers that are not [EAGER_LOADED], for which the
    reloaded array has its first element. *)
Lemma load_string_resolves_defined (npub : TNostrPublic) (w w1 : World)
    (profile : option ProfileRef) :
  load_string npub w = (Ok profile, w1) → is_Some profile.
Proof.
  assert (ProfileCache.isEagerLoaded (profiles w) npub = false →
          loadProfile npub w = (Ok profile, w1) → is_Some profile) as Hreload.
  { intros Hno. unfold loadProfile. rewrite bind_run.
    destruct (loadProfiles [[npub]] w) as [[refs|e] w'] eqn:E; [|done].
    apply loadProfiles_inv in E as ->.
    rewrite (to_fetch_singleton_unloaded _ _ Hno). intros [= <- _]. by eexists. }
  unfold load_string. rewrite bind_run. unfold gets, ProfileCache.isEagerLoaded in *.
  destruct (profiles w !! npub) as [p|];
    [destruct (decide (IProfile.load p = LAZY_LOADED)) as [Hlazy|_]|].
  - apply Hreload. rewrite Hlazy. done.
  - intros [= <- _]. by eexists.
  - by apply Hreload.
Qed.

(** [loadAccount] once the load of the profile has resolved: the user
    handle is written into the cached object, then the account is asked
    for, and its result is returned as it is. *)
Lemma loadAccount_after_load (nsec pin : string) (user : NostrUser)
    (w w1 : World) (p : IProfile.t) :
  new_NostrUser nsec = Some user →
  load_string (nostrPublic user) w =
    (Ok (Some (ProfileAt (nostrPublic user))), w1) →
  profiles w1 !! nostrPublic user = Some p →
  loadAccount nsec pin w =
    (Ok (encryptAccount (IProfile.set_user user p) (Some pin)),
     set_profiles
       (λ ps, <[nostrPublic user := IProfile.set_user user p]> ps) w1).
Proof.
  intros Huser Hload Hp. unfold loadAccount. rewrite Huser.
  rewrite bind_run, Hload, bind_run. unfold assign_user. cbn [ref_key].
  rewrite Hp, bind_run. unfold NostrSecretStatefull.createAccount.
  by destruct (encryptAccount (IProfile.set_user user p) (Some pin)).
Qed.

(** C10.  [loadAccount] assigns the user handle to the cached profile
    before it asks for the account: once the load of the profile has
    resolved, the call resolves to whatever the encryption of the
    updated profile gives, [null] included, and in every case the cached
    profile of the identifier carries the user handle afterwards, while
    the account registry (map, stream, durable storage) is as before. *)
Theorem loadAccount_keeps_user_on_cached_profile
    (nsec pin : string) (user : NostrUser) (w w1 : World)
    (profile : option ProfileRef) :
  new_NostrUser nsec = Some user →
  load_string (nostrPublic user) w = (Ok profile, w1) →
  ∃ p : IProfile.t,
    profile = Some (ProfileAt (nostrPublic user)) ∧
    deref w1 (ProfileAt (nostrPublic user)) = Some p ∧
    (loadAccount nsec pin w).1 =
      Ok (encryptAccount (IProfile.set_user user p) (Some pin)) ∧
    deref (loadAccount nsec pin w).2 (ProfileAt (nostrPublic user)) =
      Some (IProfile.set_user user p) ∧
    IProfile.user (IProfile.set_user user p) = Some user ∧
    secrets (loadAccount nsec pin w).2 = secrets w ∧
    localStorage (loadAccount nsec pin w).2 = localStorage w.
Proof.
  intros Huser Hload.
  destruct (load_string_resolves_defined _ _ _ _ Hload) as [ref ->].
  destruct (load_string_inv _ _ _ _ Hload) as (-> & [p Hp] & Hls & Hsec).
  exists p. rewrite (loadAccount_after_load _ _ _ _ _ _ Huser Hload Hp).
  unfold deref. cbn. rewrite lookup_insert_eq. done.
Qed.

End Orchestrator.

(** ** The account secret store *)

Section Store.
Context {encrypt : ProfileEncrypt} {browser : Browser}.

Import NostrSecretStatefull.

Lemma obj_get_delete {V : Type} (o : JsObject V) (k : string) :
  obj_get (obj_delete o k) k = None.
Proof.
  induction o as [|[k' v] o IH]; [done|]. simpl.
  case_decide as Hk; [done|]. simpl. by rewrite decide_False.
Qed.

Lemma Object_keys_delete {V : Type} (o : JsObject V) (k : string) :
  k ∉ Object_keys (obj_delete o k).
Proof.
  unfold Object_keys. induction o as [|[k' v] o IH]; simpl.
  - apply not_elem_of_nil.
  - case_decide as Hk; [done|]. simpl. rewrite not_elem_of_cons. done.
Qed.


(** The two outcomes of [update]: the write is refused and nothing else
    happens, or the blob is written and then the list is published. *)
Lemma update_refused (w : World) :
  refused (localStorage w) (accounts (secrets w)) →
  update w = (Throw QuotaExceededError, w).
Proof.
  unfold refused, update, localStorage_setItem. intros Hno. run.
  by rewrite Hno.
Qed.

Lemma update_accepted (w : World) :
  accepted (localStorage w) (accounts (secrets w)) →
  update w =
    (Ok tt,
     set_secrets (λ st,
         mkSecretStore (accounts st)
           (BehaviorSubject.next (Object_values (accounts st)) (accountsSubject st)))
       (set_localStorage
          (λ ls, <[STORAGE_KEY := JSON_stringify (accounts (secrets w))]> ls) w)).
Proof.
  unfold accepted, update, localStorage_setItem. intros Hyes. run.
  by rewrite Hyes.
Qed.

Lemma update_inv (w w' : World) :
  update w = (Ok tt, w') →
  accounts (secrets w') = accounts (secrets w) ∧
  published_current (secrets w') ∧
  localStorage w' !! STORAGE_KEY = Some (JSON_stringify (accounts (secrets w'))).
Proof.
  destruct (storage_accepts (localStorage w) STORAGE_KEY
              (JSON_stringify (accounts (secrets w)))) eqn:E.
  - rewrite (update_accepted w E). intros [= <-]. unfold published_current.
    cbn. by rewrite lookup_insert_eq.
  - by rewrite (update_refused w E).
Qed.

Lemma addAccount_unfold (a : IUnauthenticatedUser.t) (w : World) :
  addAccount a w =
    update (set_secrets (λ st,
      mkSecretStore (obj_set (accounts st) (IUnauthenticatedUser.npub a) a)
        (accountsSubject st)) w).
Proof. reflexivity. Qed.

Lemma removeAccount_unfold (a : IUnauthenticatedUser.t) (w : World) :
  removeAccount a w =
    update (set_secrets (λ st,
      mkSecretStore (obj_delete (accounts st) (IUnauthenticatedUser.npub a))
        (accountsSubject st)) w).
Proof. reflexivity. Qed.

(** C5.  When the browser refuses the write of [addAccount] (of
    [removeAccount]), the call throws the storage's error, the accounts
    stream is as before (same latest value, nothing delivered to any
    observer) and so is the durable storage. *)
Theorem persistence_failure_publishes_nothing
    (a : IUnauthenticatedUser.t) (w : World) :
  (refused (localStorage w)
     (obj_set (accounts (secrets w)) (IUnauthenticatedUser.npub a) a) →
   (addAccount a w).1 = Throw QuotaExceededError ∧
   accountsSubject (secrets (addAccount a w).2) = accountsSubject (secrets w) ∧
   localStorage (addAccount a w).2 = localStorage w) ∧
  (refused (localStorage w)
     (obj_delete (accounts (secrets w)) (IUnauthenticatedUser.npub a)) →
   (removeAccount a w).1 = Throw QuotaExceededError ∧
   accountsSubject (secrets (removeAccount a w).2) = accountsSubject (secrets w) ∧
   localStorage (removeAccount a w).2 = localStorage w).
Proof.
  split; intros Hno.
  - rewrite addAccount_unfold, update_refused; done.
  - rewrite removeAccount_unfold, update_refused; done.
Qed.

(** C6.  [createAccount] returns what the encryption collaborator
    returns, [null] exactly when the collaborator gives no account; it
    never throws and the state after it is the state before.  The
    mutating operations return nothing or throw. *)
Theorem createAccount_is_pure_delegation
    (profile : IProfile.t) (pin : option string) (w : World) :
  createAccount profile pin w = (Ok (encryptAccount profile pin), w) ∧
  ((createAccount profile pin w).1 = Ok None ↔
     encryptAccount profile pin = None) ∧
  ∀ a : IUnauthenticatedUser.t,
    ((addAccount a w).1 = Ok tt ∨ ∃ e, (addAccount a w).1 = Throw e) ∧
    ((removeAccount a w).1 = Ok tt ∨ ∃ e, (removeAccount a w).1 = Throw e).
Proof.
  unfold createAccount. split_and!.
  - by destruct (encryptAccount profile pin).
  - destruct (encryptAccount profile pin); cbn; split; congruence.
  - intros a. split.
    + destruct (addAccount a w) as [[[]|e] w']; eauto.
    + destruct (removeAccount a w) as [[[]|e] w']; eauto.
Qed.

(** C7.  Whenever [addAccount(A)] followed by [removeAccount(A)] has
    run, the registry has no entry for the identifier of [A] and the
    blob in the durable storage is the serialisation of that registry;
    and the sequence does run when the storage accepts its two writes. *)
Theorem add_then_remove_leaves_no_entry
    (a : IUnauthenticatedUser.t) (w : World) :
  (∀ w' : World,
     (addAccount a ≫= λ _, removeAccount a) w = (Ok tt, w') →
     obj_get (accounts (secrets w')) (IUnauthenticatedUser.npub a) = None ∧
     (IUnauthenticatedUser.npub a ∉ Object_keys (accounts (secrets w'))) ∧
     localStorage w' !! STORAGE_KEY =
       Some (JSON_stringify (accounts (secrets w')))) ∧
  (accepted (localStorage w)
     (obj_set (accounts (secrets w)) (IUnauthenticatedUser.npub a) a) →
   accepted
     (<[STORAGE_KEY :=
          JSON_stringify
            (obj_set (accounts (secrets w)) (IUnauthenticatedUser.npub a) a)]>
        (localStorage w))
     (obj_delete
        (obj_set (accounts (secrets w)) (IUnauthenticatedUser.npub a) a)
        (IUnauthenticatedUser.npub a)) →
   ∃ w' : World, (addAccount a ≫= λ _, removeAccount a) w = (Ok tt, w')).
Proof.
  split.
  - intros w'. rewrite bind_run.
    destruct (addAccount a w) as [[[]|e] w1] eqn:Hadd; [|done].
    rewrite removeAccount_unfold. intros (Hreg & _ & Hblob)%update_inv.
    rewrite Hblob, Hreg. cbn.
    split_and!; [apply obj_get_delete|apply Object_keys_delete|done].
  - intros Hadd Hremove. rewrite bind_run, addAccount_unfold.
    rewrite update_accepted by exact Hadd.
    rewrite removeAccount_unfold, update_accepted by exact Hremove.
    by eexists.
Qed.

(** A first construction seeds the registry from the durable storage. *)
Lemma constructor_first (ls : gmap string string) (st : SecretStore)
    (instance' : option SecretStore) :
  constructor None ls = Ok (st, instance') →
  instance' = Some st ∧
  JSON_parse (or_empty_object (ls !! STORAGE_KEY)) = Some (accounts st) ∧
  published_current st ∧
  BehaviorSubject.observers (accountsSubject st) = [].
Proof.
  unfold constructor, init_fields.
  destruct (JSON_parse (or_empty_object (ls !! STORAGE_KEY))); [|done].
  by intros [= <- <-].
Qed.

(** A later construction returns the instance there is. *)
Lemma constructor_again (existing : SecretStore) (ls : gmap string string)
    (st : SecretStore) (instance' : option SecretStore) :
  constructor (Some existing) ls = Ok (st, instance') →
  st = existing ∧ instance' = Some existing.
Proof.
  unfold constructor. destruct (init_fields ls); [|done]. by intros [= <- <-].
Qed.

(** C8.  The latest value of the accounts stream is the current account
    list at the first construction, where the registry is the one read
    from the durable storage, and after every [addAccount] and
    [removeAccount] that returns.  In such a state a new subscriber is
    delivered, at once and as its first value, the current list; the
    subscription changes neither the registry nor what the others
    received. *)
Theorem accounts_stream_holds_current_list :
  (∀ ls st instance',
     constructor None ls = Ok (st, instance') →
     JSON_parse (or_empty_object (ls !! STORAGE_KEY)) = Some (accounts st) ∧
     published_current st) ∧
  (∀ a w w', addAccount a w = (Ok tt, w') → published_current (secrets w')) ∧
  (∀ a w w', removeAccount a w = (Ok tt, w') → published_current (secrets w')) ∧
  (∀ w, published_current (secrets w) →
     (accounts_subscribe w).1 = Ok tt ∧
     BehaviorSubject.observers (accountsSubject (secrets (accounts_subscribe w).2)) =
       BehaviorSubject.observers (accountsSubject (secrets w)) ++
         [[Object_values (accounts (secrets w))]] ∧
     accounts (secrets (accounts_subscribe w).2) = accounts (secrets w) ∧
     published_current (secrets (accounts_subscribe w).2)).
Proof.
  split_and!.
  - intros ls st instance' Hnew.
    by destruct (constructor_first _ _ _ Hnew) as (_ & ? & ? & _).
  - intros a w w'. rewrite addAccount_unfold. by intros (_ & ? & _)%update_inv.
  - intros a w w'. rewrite removeAccount_unfold.
    by intros (_ & ? & _)%update_inv.
  - intros w Hcur. unfold accounts_subscribe, published_current in *. cbn.
    by rewrite Hcur.
Qed.

End Store.

(** ** Scenarios *)

Import Doubles.

(** The scenario of the spec: with an empty cache and a remote source
    that answers, [loadProfiles([["p1","p2"],["p2","p3"]])] makes one
    fetch, for [p1], [p2], [p3], and resolves to their three profiles in
    that order. *)
Example loadProfiles_on_empty_cache :
  (@ProfileProxy.loadProfiles answering_api
     [["p1"; "p2"]; ["p2"; "p3"]] empty_world).1 =
    Ok [ProfileAt "p1"; ProfileAt "p2"; ProfileAt "p3"] ∧
  requests
    (@ProfileProxy.loadProfiles answering_api
       [["p1"; "p2"]; ["p2"; "p3"]] empty_world).2 = [["p1"; "p2"; "p3"]].
Proof. vm_compute. done. Qed.

(** C1.  With [p1] cached as [EAGER_LOADED], [loadProfiles([["p1","p2"]])]
    resolves to the profile of [p2] alone: the de-duplicated union has
    two identifiers, the array one element, and [p1] is not served from
    the cache. *)
Theorem loadProfiles_result_lacks_the_eager_loaded :
  ProfileCache.isEagerLoaded (profiles p1_eager_world) "p1" = true ∧
  requested [["p1"; "p2"]] = ["p1"; "p2"] ∧
  (@ProfileProxy.loadProfiles answering_api [["p1"; "p2"]] p1_eager_world).1 =
    Ok [ProfileAt "p2"].
Proof. vm_compute. done. Qed.

(** C3.  With [p1] cached as [EAGER_LOADED]: the single-identifier
    [load("p1")] returns the cached object and reaches no remote source;
    the batch [load(["p1"])] hands the remote source the empty list and
    resolves to the empty array, without the cached profile of [p1]. *)
Theorem load_batch_result_lacks_the_eager_loaded :
  ProfileCache.isEagerLoaded (profiles p1_eager_world) "p1" = true ∧
  @ProfileProxy.load answering_api (inl "p1") p1_eager_world =
    (Ok (inl (Some (ProfileAt "p1"))), p1_eager_world) ∧
  @ProfileProxy.load answering_api (inr ["p1"]) p1_eager_world =
    (Ok (inr []), set_requests (λ _, [[]]) p1_eager_world).
Proof. vm_compute. done. Qed.

(** ** The theorems at work *)

Lemma fetch_failure_witness :
  @api_loadProfiles failing_api ["p4"] = None ∧
  (@ProfileProxy.loadProfiles failing_api [["p4"]] p1_eager_world).1 =
    Throw FetchError ∧
  profiles (@ProfileProxy.loadProfiles failing_api [["p4"]] p1_eager_world).2 =
    profiles p1_eager_world.
Proof.
  split; [reflexivity|].
  destruct (@fetch_failure_leaves_cache_untouched failing_api ["p4"]
              p1_eager_world eq_refl) as (_ & _ & _ & _ & Hbatches).
  destruct (Hbatches [["p4"]] eq_refl) as [Hcall Hcache].
  split; [by rewrite Hcall|exact Hcache].
Defined.

Lemma all_eager_witness :
  ProfileCache.isEagerLoaded (profiles p1_eager_world) "p1" = true ∧
  requests (@ProfileProxy.loadProfiles answering_api [["p1"]] p1_eager_world).2 =
    [[]] ∧
  (@ProfileProxy.loadProfiles answering_api [["p1"]] p1_eager_world).1 = Ok [] ∧
  (@ProfileProxy.loadProfile answering_api "p1" p1_eager_world).1 = Ok None.
Proof.
  split; [reflexivity|].
  destruct (@loadProfiles_all_eager_fetches_nothing answering_api [["p1"]]
              p1_eager_world) as (_ & Hall & Hone).
  destruct Hall as [Hreq Hres].
  { simpl. intros npub Hin. apply list_elem_of_singleton in Hin. subst npub.
    reflexivity. }
  destruct (Hone "p1" eq_refl) as (_ & _ & _ & Hundefined).
  split_and!; [exact Hreq|exact Hres|exact Hundefined].
Defined.

Lemma loadAccount_witness :
  let user := mkNostrUser "s3cret" "npub1s3cret" in
  let w1 := (@ProfileProxy.load_string answering_api "npub1s3cret" empty_world).2 in
  @new_NostrUser prefix_keys "s3cret" = Some user ∧
  @ProfileProxy.load_string answering_api "npub1s3cret" empty_world =
    (Ok (Some (ProfileAt "npub1s3cret")), w1) ∧
  (@ProfileProxy.loadAccount answering_api prefix_keys refusing_encrypt
     "s3cret" "1234" empty_world).1 = Ok None ∧
  (deref
     (@ProfileProxy.loadAccount answering_api prefix_keys refusing_encrypt
        "s3cret" "1234" empty_world).2 (ProfileAt "npub1s3cret")
     ≫= IProfile.user) = Some user.
Proof.
  intros user w1.
  assert (@ProfileProxy.load_string answering_api "npub1s3cret" empty_world =
    (Ok (Some (ProfileAt "npub1s3cret")), w1)) as Hload by (vm_compute; reflexivity).
  split; [reflexivity|]. split; [exact Hload|].
  destruct (@loadAccount_keeps_user_on_cached_profile answering_api prefix_keys
              refusing_encrypt "s3cret" "1234" user empty_world w1
              (Some (ProfileAt "npub1s3cret")) eq_refl Hload)
    as (p & _ & _ & Hres & Hcached & Huser & _).
  split; [exact Hres|]. cbn [nostrPublic user] in Hcached.
  rewrite Hcached. exact Huser.
Defined.

Lemma persistence_failure_witness :
  @refused (browser 20) (localStorage empty_world)
    (obj_set (accounts (secrets empty_world)) (IUnauthenticatedUser.npub alice) alice) ∧
  @refused (browser 20) (localStorage empty_world)
    (obj_delete (accounts (secrets empty_world)) (IUnauthenticatedUser.npub alice)) ∧
  (@NostrSecretStatefull.addAccount (browser 20) alice empty_world).1 =
    Throw QuotaExceededError ∧
  accountsSubject (secrets (@NostrSecretStatefull.addAccount (browser 20) alice empty_world).2) =
    BehaviorSubject.new [] ∧
  (@NostrSecretStatefull.removeAccount (browser 20) alice empty_world).1 =
    Throw QuotaExceededError.
Proof.
  assert (@refused (browser 20) (localStorage empty_world)
    (obj_set (accounts (secrets empty_world)) (IUnauthenticatedUser.npub alice) alice))
    as Hadd by (vm_compute; reflexivity).
  assert (@refused (browser 20) (localStorage empty_world)
    (obj_delete (accounts (secrets empty_world)) (IUnauthenticatedUser.npub alice)))
    as Hremove by (vm_compute; reflexivity).
  destruct (@persistence_failure_publishes_nothing (browser 20) alice
              empty_world) as [Hadding Hremoving].
  destruct (Hadding Hadd) as (Hthrow & Hstream & _).
  destruct (Hremoving Hremove) as (Hthrow' & _).
  split_and!; [exact Hadd|exact Hremove|exact Hthrow|exact Hstream|exact Hthrow'].
Defined.

Lemma add_then_remove_witness :
  ∃ w' : World,
    (@NostrSecretStatefull.addAccount (browser 1000) alice ≫=
       λ _, @NostrSecretStatefull.removeAccount (browser 1000) alice) empty_world =
      (Ok tt, w') ∧
    obj_get (accounts (secrets w')) "npub1alice" = None ∧
    localStorage w' !! NostrSecretStatefull.STORAGE_KEY =
      Some (@JSON_stringify (browser 1000) (accounts (secrets w'))) ∧
    @JSON_stringify (browser 1000) (accounts (secrets w')) = "{}".
Proof.
  destruct (@add_then_remove_leaves_no_entry (browser 1000) alice empty_world)
    as [Hafter Hruns].
  destruct Hruns as [w' Hrun].
  - vm_compute. reflexivity.
  - vm_compute. reflexivity.
  - destruct (Hafter w' Hrun) as (Hgone & _ & Hblob).
    exists w'. split_and!; [exact Hrun|exact Hgone|exact Hblob|].
    rewrite bind_run in Hrun. vm_compute in Hrun.
    injection Hrun as <-. reflexivity.
Defined.

Lemma accounts_stream_witness :
  let ls : gmap string string :=
    {[ NostrSecretStatefull.STORAGE_KEY := stringify [("npub1alice", alice)] ]} in
  let seeded := mkSecretStore [("npub1alice", alice)] (BehaviorSubject.new [alice]) in
  @NostrSecretStatefull.constructor (browser 1000) None ls =
    Ok (seeded, Some seeded) ∧
  published_current seeded ∧
  BehaviorSubject.observers
    (accountsSubject
       (secrets (NostrSecretStatefull.accounts_subscribe
                   (mkWorld ∅ [] ls seeded)).2)) = [[[alice]]].
Proof.
  intros ls seeded.
  assert (@NostrSecretStatefull.constructor (browser 1000) None ls =
    Ok (seeded, Some seeded)) as Hnew by (vm_compute; reflexivity).
  destruct (@accounts_stream_holds_current_list (browser 1000))
    as (Hconstructed & _ & _ & Hsubscribe).
  destruct (Hconstructed ls seeded (Some seeded) Hnew) as [_ Hcurrent].
  destruct (Hsubscribe (mkWorld ∅ [] ls seeded) Hcurrent) as (_ & Hinbox & _).
  split_and!; [exact Hnew|exact Hcurrent|exact Hinbox].
Defined.

(** * Further properties of the account secret store *)

Section Registry.
Context {V : Type}.
Implicit Types (o : JsObject V) (k : string) (v : V).


Lemma obj_get_delete_ne o k k' :
  k ≠ k' → obj_get (obj_delete o k) k' = obj_get o k'.
Proof.
  intros Hne. induction o as [|[k0 v0] o IH]; simpl; [done|].
  destruct (decide (k0 = k)) as [->|Hk0]; simpl.
  - by rewrite decide_False.
  - by rewrite IH.
Qed.

Lemma obj_get_None o k : obj_get o k = None ↔ k ∉ Object_keys o.
Proof.
  unfold Object_keys. induction o as [|[k0 v0] o IH]; simpl.
  - split; [intros _; apply not_elem_of_nil|done].
  - rewrite not_elem_of_cons. destruct (decide (k0 = k)) as [->|Hk].
    + split; [done|]. by intros [? _].
    + rewrite IH. split; [by split|by intros [_ ?]].
Qed.


Lemma obj_delete_absent o k : obj_get o k = None → obj_delete o k = o.
Proof.
  induction o as [|[k0 v0] o IH]; simpl; [done|].
  case_decide; [done|]. intros Hk. by rewrite IH.
Qed.

Lemma Object_keys_set o k v :
  Object_keys (obj_set o k v) =
    if decide (k ∈ Object_keys o) then Object_keys o else Object_keys o ++ [k].
Proof.
  unfold Object_keys. induction o as [|[k0 v0] o IH]; csimpl.
  - done.
  - destruct (decide (k0 = k)) as [->|Hk0]; csimpl.
    + rewrite decide_True; [done|left].
    + rewrite IH. destruct (decide (k ∈ o.*1)) as [Hin|Hout].
      * rewrite decide_True; [done|by right].
      * rewrite decide_False; [done|]. rewrite not_elem_of_cons. done.
Qed.

Lemma Object_keys_delete_filter o k :
  Object_keys (obj_delete o k) = filter (λ k', k' ≠ k) (Object_keys o).
Proof.
  unfold Object_keys. induction o as [|[k0 v0] o IH]; csimpl; [done|].
  destruct (decide (k0 = k)) as [->|Hk0].
  - rewrite filter_cons_False; [done|]. by intros ?.
  - rewrite filter_cons_True by done. csimpl. by rewrite IH.
Qed.

Lemma obj_set_delete_comm o k k' v :
  k ≠ k' → obj_delete (obj_set o k v) k' = obj_set (obj_delete o k') k v.
Proof.
  intros Hne. induction o as [|[k0 v0] o IH]; simpl.
  - by rewrite decide_False.
  - destruct (decide (k0 = k)) as [->|Hk0]; simpl.
    + rewrite !decide_False by done. simpl. by rewrite decide_True.
    + destruct (decide (k0 = k')) as [->|Hk0']; simpl.
      * done.
      * rewrite decide_False by done. by rewrite IH.
Qed.

End Registry.

Section StoreMutations.
Context {encrypt : ProfileEncrypt} {browser : Browser}.

Import NostrSecretStatefull.

Implicit Types (a b : IUnauthenticatedUser.t) (w : World).

(** [update] returns or throws the storage's error, and in either case
    leaves the registry map and the profile side alone. *)
Lemma update_cases w :
  (refused (localStorage w) (accounts (secrets w)) ∧
   update w = (Throw QuotaExceededError, w)) ∨
  (accepted (localStorage w) (accounts (secrets w)) ∧
   ∃ w', update w = (Ok tt, w') ∧
     accounts (secrets w') = accounts (secrets w) ∧
     accountsSubject (secrets w') =
       BehaviorSubject.next (Object_values (accounts (secrets w)))
         (accountsSubject (secrets w)) ∧
     localStorage w' =
       <[STORAGE_KEY := JSON_stringify (accounts (secrets w))]> (localStorage w) ∧
     profiles w' = profiles w ∧ requests w' = requests w).
Proof.
  destruct (storage_accepts (localStorage w) STORAGE_KEY
              (JSON_stringify (accounts (secrets w)))) eqn:E.
  - right. split; [done|]. rewrite (update_accepted w E). by eexists.
  - left. split; [done|]. by apply update_refused.
Qed.

Lemma update_accounts w : accounts (secrets (update w).2) = accounts (secrets w).
Proof.
  destruct (update_cases w) as [[_ ->]|[_ (w' & -> & Hreg & _)]]; done.
Qed.

Lemma addAccount_accounts a w :
  accounts (secrets (addAccount a w).2) =
    obj_set (accounts (secrets w)) (IUnauthenticatedUser.npub a) a.
Proof. by rewrite addAccount_unfold, update_accounts. Qed.

Lemma removeAccount_accounts a w :
  accounts (secrets (removeAccount a w).2) =
    obj_delete (accounts (secrets w)) (IUnauthenticatedUser.npub a).
Proof. by rewrite removeAccount_unfold, update_accounts. Qed.



(** X3.  Whatever its outcome, [removeAccount] leaves no entry for the
    identifier of the account, and the other entries as they were and in
    their order. *)
Theorem removeAccount_removes_only_that_identifier a w :
  obj_get (accounts (secrets (removeAccount a w).2)) (IUnauthenticatedUser.npub a) =
    None ∧
  (∀ k, k ≠ IUnauthenticatedUser.npub a →
     obj_get (accounts (secrets (removeAccount a w).2)) k =
       obj_get (accounts (secrets w)) k) ∧
  Object_keys (accounts (secrets (removeAccount a w).2)) =
    filter (λ k, k ≠ IUnauthenticatedUser.npub a) (Object_keys (accounts (secrets w))).
Proof.
  rewrite removeAccount_accounts. split_and!.
  - apply obj_get_delete.
  - intros k Hk. by apply obj_get_delete_ne.
  - apply Object_keys_delete_filter.
Qed.

(** X4.  [removeAccount] of an identifier that is not registered is not
    an error and changes no entry; the call still writes the blob and,
    the write accepted, publishes the unchanged list once more to every
    observer. *)
Theorem removeAccount_of_absent_republishes a w :
  obj_get (accounts (secrets w)) (IUnauthenticatedUser.npub a) = None →
  accepted (localStorage w) (accounts (secrets w)) →
  ∃ w',
    removeAccount a w = (Ok tt, w') ∧
    accounts (secrets w') = accounts (secrets w) ∧
    BehaviorSubject.observers (accountsSubject (secrets w')) =
      (λ inbox, inbox ++ [Object_values (accounts (secrets w))]) <$>
        BehaviorSubject.observers (accountsSubject (secrets w)) ∧
    localStorage w' !! STORAGE_KEY =
      Some (JSON_stringify (accounts (secrets w))).
Proof.
  intros Habsent Hyes. rewrite removeAccount_unfold, update_accepted.
  - eexists. split; [reflexivity|]. cbn.
    rewrite (obj_delete_absent _ _ Habsent), lookup_insert_eq. done.
  - unfold accepted. cbn. by rewrite (obj_delete_absent _ _ Habsent).
Qed.

(** X5.  The two mutations keep the registry well formed, whatever
    their outcome: no identifier gets two entries, and every entry stays
    under the identifier of its account. *)
Theorem mutations_keep_registry_well_formed a w :
  registry_wf (accounts (secrets w)) →
  registry_wf (accounts (secrets (addAccount a w).2)) ∧
  registry_wf (accounts (secrets (removeAccount a w).2)).
Proof.
  intros [Hnodup Hkeyed].
  rewrite addAccount_accounts, removeAccount_accounts. split; split.
  - rewrite Object_keys_set. case_decide as Hin; [done|].
    apply NoDup_app. split_and!; [done| |apply NoDup_singleton].
    intros k Hk ->%list_elem_of_singleton. done.
  - clear Hnodup. induction Hkeyed as [|[k0 v0] o Hk0 Ho IH]; simpl.
    + by repeat constructor.
    + case_decide; constructor; simpl in *; by subst.
  - rewrite Object_keys_delete_filter. by apply NoDup_filter.
  - clear Hnodup. induction Hkeyed as [|[k0 v0] o Hk0 Ho IH]; simpl.
    + by constructor.
    + case_decide; [done|]. by constructor.
Qed.

(** X6.  A mutation that returns has delivered exactly one value to
    every observer of the stream, the full list of the registry after
    the mutation; it has written the blob of that registry under the
    key of the store and no other key of the storage, and has touched
    neither the profile cache nor the remote source. *)
Theorem completed_mutation_publishes_one_snapshot a w w' :
  addAccount a w = (Ok tt, w') ∨ removeAccount a w = (Ok tt, w') →
  BehaviorSubject.observers (accountsSubject (secrets w')) =
    (λ inbox, inbox ++ [Object_values (accounts (secrets w'))]) <$>
      BehaviorSubject.observers (accountsSubject (secrets w)) ∧
  BehaviorSubject.value (accountsSubject (secrets w')) =
    Object_values (accounts (secrets w')) ∧
  localStorage w' =
    <[STORAGE_KEY := JSON_stringify (accounts (secrets w'))]> (localStorage w) ∧
  (∀ key, key ≠ STORAGE_KEY → localStorage w' !! key = localStorage w !! key) ∧
  profiles w' = profiles w ∧ requests w' = requests w.
Proof.
  assert (∀ w0, update w0 = (Ok tt, w') →
    BehaviorSubject.observers (accountsSubject (secrets w')) =
      (λ inbox, inbox ++ [Object_values (accounts (secrets w'))]) <$>
        BehaviorSubject.observers (accountsSubject (secrets w0)) ∧
    BehaviorSubject.value (accountsSubject (secrets w')) =
      Object_values (accounts (secrets w')) ∧
    localStorage w' =
      <[STORAGE_KEY := JSON_stringify (accounts (secrets w'))]> (localStorage w0) ∧
    (∀ key, key ≠ STORAGE_KEY → localStorage w' !! key = localStorage w0 !! key) ∧
    profiles w' = profiles w0 ∧ requests w' = requests w0) as Hupdate.
  { intros w0 Hrun.
    destruct (update_cases w0) as [[_ Hthrow]|[_ (w1 & Hok & Hreg & Hsub & Hls & Hp & Hr)]];
      [congruence|].
    rewrite Hrun in Hok. injection Hok as <-.
    rewrite Hsub, Hls, Hreg. split_and!; [done..| |done|done].
    intros key Hkey. by rewrite lookup_insert_ne. }
  intros [Hadd|Hremove].
  - rewrite addAccount_unfold in Hadd. apply (Hupdate _ Hadd).
  - rewrite removeAccount_unfold in Hremove. apply (Hupdate _ Hremove).
Qed.


End StoreMutations.

Section StoreLifecycle.
Context {encrypt : ProfileEncrypt} {browser : Browser}.

Import NostrSecretStatefull.

Implicit Types (a b : IUnauthenticatedUser.t) (w : World).

(** X8.  What a mutation that returned has stored is what a first
    construction in a new process reads back: when [JSON.parse] inverts
    [JSON.stringify] on the registry (and its text is not empty), the
    constructor seeds the same registry and a stream holding its list. *)
Theorem completed_mutation_survives_restart a w w' :
  addAccount a w = (Ok tt, w') ∨ removeAccount a w = (Ok tt, w') →
  JSON_stringify (accounts (secrets w')) ≠ "" →
  JSON_parse (JSON_stringify (accounts (secrets w'))) = Some (accounts (secrets w')) →
  ∃ st,
    constructor None (localStorage w') = Ok (st, Some st) ∧
    accounts st = accounts (secrets w') ∧
    BehaviorSubject.value (accountsSubject st) =
      Object_values (accounts (secrets w')) ∧
    BehaviorSubject.observers (accountsSubject st) = [].
Proof.
  intros Hrun Hnonempty Hparse.
  assert (localStorage w' !! STORAGE_KEY =
          Some (JSON_stringify (accounts (secrets w')))) as Hblob.
  { destruct Hrun as [Hrun|Hrun];
      [rewrite addAccount_unfold in Hrun|rewrite removeAccount_unfold in Hrun];
      by apply update_inv in Hrun as (_ & _ & ?). }
  unfold constructor, init_fields. rewrite Hblob. unfold or_empty_object.
  rewrite decide_False by done. rewrite Hparse. by eexists.
Qed.


(** X10.  A first construction on a storage without the blob, or with
    the empty string for it, reads the text of the empty object: with a
    [JSON.parse] that reads it as the empty object, the registry is
    empty and the stream holds the empty list.  A blob that does not
    parse makes the construction throw, and no instance is set. *)
Theorem construction_without_a_stored_blob (ls : gmap string string) :
  (ls !! STORAGE_KEY = None ∨ ls !! STORAGE_KEY = Some "" →
   JSON_parse "{}" = Some [] →
   constructor None ls =
     Ok (mkSecretStore [] (BehaviorSubject.new []),
         Some (mkSecretStore [] (BehaviorSubject.new [])))) ∧
  (∀ blob instance,
     ls !! STORAGE_KEY = Some blob → blob ≠ "" → JSON_parse blob = None →
     constructor instance ls = Throw SyntaxError).
Proof.
  split.
  - intros Hnone Hparse. unfold constructor, init_fields.
    destruct Hnone as [-> | ->]; unfold or_empty_object;
      [|rewrite decide_True by done]; by rewrite Hparse.
  - intros blob instance Hblob Hne Hparse. unfold constructor, init_fields.
    rewrite Hblob. unfold or_empty_object. rewrite decide_False by done.
    by rewrite Hparse.
Qed.

Lemma obj_set_set {V : Type} (o : JsObject V) (k : string) (v v' : V) :
  obj_set (obj_set o k v) k v' = obj_set o k v'.
Proof.
  induction o as [|[k0 v0] o IH]; simpl.
  - by rewrite decide_True.
  - destruct (decide (k0 = k)) as [->|Hk]; simpl.
    + by rewrite decide_True.
    + by rewrite decide_False, IH.
Qed.

Lemma obj_delete_delete {V : Type} (o : JsObject V) (k : string) :
  obj_delete (obj_delete o k) k = obj_delete o k.
Proof. apply obj_delete_absent, obj_get_delete. Qed.

(** X11.  On the registry, whatever the outcomes of the calls: adding
    an account twice is adding it once (the later account wins for one
    identifier), removing twice is removing once, and an addition and a
    removal of different identifiers give the same registry in either
    order. *)
Theorem mutations_compose_on_the_registry a b w :
  (IUnauthenticatedUser.npub a = IUnauthenticatedUser.npub b →
   accounts (secrets (addAccount b (addAccount a w).2).2) =
     accounts (secrets (addAccount b w).2)) ∧
  accounts (secrets (removeAccount a (removeAccount a w).2).2) =
    accounts (secrets (removeAccount a w).2) ∧
  (IUnauthenticatedUser.npub a ≠ IUnauthenticatedUser.npub b →
   accounts (secrets (removeAccount b (addAccount a w).2).2) =
     accounts (secrets (addAccount a (removeAccount b w).2).2)).
Proof.
  repeat (rewrite ?addAccount_accounts, ?removeAccount_accounts). split_and!.
  - intros ->. apply obj_set_set.
  - apply obj_delete_delete.
  - intros Hne. by apply obj_set_delete_comm.
Qed.

End StoreLifecycle.

(** * Further properties of the orchestrator *)

Section Loading.
Context {api : ProfileApi} {converter : ProfileConverter} {keys : NostrKeys}
  {encrypt : ProfileEncrypt} {browser : Browser}.

Import ProfileProxy.

Implicit Types (w : World) (X : TNostrPublic).

Lemma loadProfile_state X w : (loadProfile X w).2 = (loadProfiles [[X]] w).2.
Proof.
  unfold loadProfile. rewrite bind_run.
  by destruct (loadProfiles [[X]] w) as [[refs|e] w'].
Qed.

Lemma filter_sublist {A : Type} (f : A → bool) (l : list A) :
  List.filter f l `sublist_of` l.
Proof.
  induction l as [|x l IH]; simpl; [done|].
  destruct (f x); by constructor.
Qed.

Lemma not_eager_when_absent_or_lazy X w :
  (profiles w !! X = None ∨
   ∃ p, profiles w !! X = Some p ∧ IProfile.load p = LAZY_LOADED) →
  ProfileCache.isEagerLoaded (profiles w) X = false.
Proof.
  unfold ProfileCache.isEagerLoaded. intros [->|(p & -> & Hlazy)]; [done|].
  rewrite Hlazy. done.
Qed.

Lemma load_string_cached X w (p : IProfile.t) :
  profiles w !! X = Some p → IProfile.load p ≠ LAZY_LOADED →
  load_string X w = (Ok (Some (ProfileAt X)), w).
Proof.
  intros Hp Hload. unfold load_string. rewrite bind_run. unfold gets.
  rewrite Hp. by rewrite decide_False.
Qed.

Lemma load_string_reloads X w :
  (profiles w !! X = None ∨
   ∃ p, profiles w !! X = Some p ∧ IProfile.load p = LAZY_LOADED) →
  requests (load_string X w).2 = requests w ++ [[X]] ∧
  localStorage (load_string X w).2 = localStorage w ∧
  secrets (load_string X w).2 = secrets w.
Proof.
  intros Hcase. pose proof (not_eager_when_absent_or_lazy _ _ Hcase) as Hno.
  assert (load_string X w = loadProfile X w) as ->.
  { unfold load_string. rewrite bind_run. unfold gets.
    destruct Hcase as [->|(p & -> & Hlazy)]; [done|].
    by rewrite decide_True. }
  rewrite loadProfile_state, loadProfiles_unfold.
  rewrite (to_fetch_singleton_unloaded _ _ Hno).
  rewrite forceProfileReload_requests.
  by destruct (forceProfileReload_frame [X] w).
Qed.

(** X12.  The single-identifier [load] decides on the cached object
    alone.  For an identifier cached with a load state other than
    [LAZY_LOADED] it returns the cached object and nothing else happens:
    no remote call, no state change.  For an identifier that is absent
    or [LAZY_LOADED] it reaches the remote source exactly once, for that
    identifier alone, and touches neither the registry nor the storage. *)
Theorem load_reaches_the_remote_only_for_absent_or_lazy X w :
  (∀ p, profiles w !! X = Some p → IProfile.load p ≠ LAZY_LOADED →
     load_string X w = (Ok (Some (ProfileAt X)), w)) ∧
  (profiles w !! X = None ∨
     (∃ p, profiles w !! X = Some p ∧ IProfile.load p = LAZY_LOADED) →
   requests (load_string X w).2 = requests w ++ [[X]] ∧
   localStorage (load_string X w).2 = localStorage w ∧
   secrets (load_string X w).2 = secrets w).
Proof. split; [apply load_string_cached|apply load_string_reloads]. Qed.

(** X13.  Whenever the single-identifier [load] resolves, it resolves to
    the cached object of the identifier asked for, never to [undefined],
    and that object is in the cache afterwards. *)
Theorem load_resolves_to_the_cached_object X w w1
    (profile : option ProfileRef) :
  load_string X w = (Ok profile, w1) →
  profile = Some (ProfileAt X) ∧ is_Some (deref w1 (ProfileAt X)).
Proof.
  intros Hload.
  destruct (load_string_resolves_defined _ _ _ _ Hload) as [ref ->].
  by destruct (load_string_inv _ _ _ _ Hload) as (-> & ? & _).
Qed.

(** X14.  [loadFromPubKey] rejects a key the converter refuses before
    anything else happens.  For a converted key it goes to the remote
    source without looking at the cached object first: exactly one
    remote call is made, for the identifier, or for no identifier when
    it is [EAGER_LOADED], in which case a resolved call gives
    [undefined] where [load] gives the cached object. *)
Theorem loadFromPubKey_skips_the_cache_guard (pubkey : string) w :
  (castPubkeyToNostrPublic pubkey = None →
   loadFromPubKey pubkey w = (Throw FormatError, w)) ∧
  (∀ npub, castPubkeyToNostrPublic pubkey = Some npub →
     requests (loadFromPubKey pubkey w).2 =
       requests w ++
         [if ProfileCache.isEagerLoaded (profiles w) npub then [] else [npub]] ∧
     ∀ profile w1,
       loadFromPubKey pubkey w = (Ok profile, w1) →
       profile =
         if ProfileCache.isEagerLoaded (profiles w) npub
         then None else Some (ProfileAt npub)).
Proof.
  unfold loadFromPubKey. split.
  - by intros ->.
  - intros npub ->.
    assert (to_fetch (profiles w) [[npub]] =
      if ProfileCache.isEagerLoaded (profiles w) npub then [] else [npub])
      as Hfetch.
    { destruct (ProfileCache.isEagerLoaded (profiles w) npub) eqn:E.
      - apply to_fetch_all_eager. simpl.
        by intros k ->%list_elem_of_singleton.
      - by apply to_fetch_singleton_unloaded. }
    split.
    + by rewrite loadProfile_state, loadProfiles_unfold,
        forceProfileReload_requests, Hfetch.
    + intros profile w1. unfold loadProfile. rewrite bind_run.
      destruct (loadProfiles [[npub]] w) as [[refs|e] w'] eqn:E; [|done].
      apply loadProfiles_inv in E as ->. rewrite Hfetch.
      intros [= <- _].
      by destruct (ProfileCache.isEagerLoaded (profiles w) npub).
Qed.

Lemma load_string_frame X w :
  localStorage (load_string X w).2 = localStorage w ∧
  secrets (load_string X w).2 = secrets w ∧
  (requests (load_string X w).2 = requests w ∨
   requests (load_string X w).2 = requests w ++ [[X]]).
Proof.
  destruct (profiles w !! X) as [p|] eqn:Hp;
    [destruct (decide (IProfile.load p = LAZY_LOADED)) as [Hlazy|Hother]|].
  - destruct (load_string_reloads X w) as (? & ? & ?); eauto 6.
  - rewrite (load_string_cached X w p Hp Hother). auto.
  - destruct (load_string_reloads X w) as (? & ? & ?); eauto.
Qed.

(** X15.  [loadAccount] persists nothing: in every outcome the account
    registry, its stream and the durable storage are as before, and the
    remote source has been reached at most once, for the identifier
    derived from the secret.  A secret the user handle cannot be built
    from rejects the call before anything happens, and a rejected load
    rejects the call before the user handle is assigned. *)
Theorem loadAccount_persists_nothing (nsec pin : string) w :
  secrets (loadAccount nsec pin w).2 = secrets w ∧
  localStorage (loadAccount nsec pin w).2 = localStorage w ∧
  (requests (loadAccount nsec pin w).2 = requests w ∨
   ∃ user, new_NostrUser nsec = Some user ∧
     requests (loadAccount nsec pin w).2 = requests w ++ [[nostrPublic user]]) ∧
  (new_NostrUser nsec = None →
   loadAccount nsec pin w = (Throw FormatError, w)) ∧
  (∀ user e w1,
     new_NostrUser nsec = Some user →
     load_string (nostrPublic user) w = (Throw e, w1) →
     loadAccount nsec pin w = (Throw e, w1)).
Proof.
  destruct (new_NostrUser nsec) as [user|] eqn:Huser.
  - destruct (load_string_frame (nostrPublic user) w) as (Hls & Hsec & Hreq).
    destruct (load_string (nostrPublic user) w) as [[profile|e] w1] eqn:Hload.
    + destruct (load_string_resolves_defined _ _ _ _ Hload) as [ref ->].
      destruct (load_string_inv _ _ _ _ Hload) as (-> & [p Hp] & _).
      rewrite (loadAccount_after_load _ pin _ _ _ _ Huser Hload Hp).
      cbn in *. split_and!; [done|done| |done|].
      * destruct Hreq as [?|?]; eauto.
      * intros ? ? ? [= <-]. by rewrite Hload.
    + assert (loadAccount nsec pin w = (Throw e, w1)) as Hrun.
      { unfold loadAccount. by rewrite Huser, bind_run, Hload. }
      rewrite Hrun. cbn in *.
      split_and!; [done|done| |done|].
      * destruct Hreq as [?|?]; eauto.
      * intros ? ? ? [= <-]. rewrite Hload. by intros [= <- <-].
  - unfold loadAccount. rewrite Huser. cbn.
    split_and!; [done|done|by left|done|done].
Qed.

(** X16.  Whenever [loadProfiles] resolves, its array is the list of
    references of the requested identifiers that were not
    [EAGER_LOADED] when the call was made: without repetition, in the
    order of their first request, each one in the cache afterwards; it
    holds no identifier that was not requested. *)
Theorem loadProfiles_returns_the_fetched_identifiers
    (npubss : list (list TNostrPublic)) w w' (refs : list ProfileRef) :
  loadProfiles npubss w = (Ok refs, w') →
  NoDup refs ∧
  ref_key <$> refs `sublist_of` requested npubss ∧
  (∀ ref, ref ∈ refs ↔
     ref_key ref ∈ concat npubss ∧
     ProfileCache.isEagerLoaded (profiles w) (ref_key ref) = false) ∧
  (∀ ref, ref ∈ refs → is_Some (deref w' ref)).
Proof.
  intros Hrun. pose proof (loadProfiles_inv _ _ _ _ Hrun) as ->.
  rewrite loadProfiles_unfold in Hrun.
  apply forceProfileReload_inv in Hrun as [_ Hcached].
  assert (ref_key <$> (ProfileAt <$> to_fetch (profiles w) npubss) =
          to_fetch (profiles w) npubss) as Hkeys.
  { rewrite <- list_fmap_compose. apply list_fmap_id. }
  split_and!.
  - apply NoDup_fmap_2; [by intros k k' [= ->]|apply to_fetch_NoDup].
  - rewrite Hkeys. apply filter_sublist.
  - intros [k]. rewrite <- elem_of_to_fetch. cbn. split.
    + by intros (k' & [= ->] & Hk')%list_elem_of_fmap.
    + intros Hk. apply list_elem_of_fmap. eauto.
  - intros ref (k & -> & Hk)%list_elem_of_fmap. by apply Hcached.
Qed.

Lemma Set_spread_idemp (xs : list string) :
  Set_spread (Set_spread xs) = Set_spread xs.
Proof. apply Set_spread_id, Set_spread_NoDup. Qed.

(** X17.  Only the union of the batches matters to [loadProfiles]: the
    same identifiers given as one batch, or de-duplicated beforehand,
    make the same call with the same outcome. *)
Theorem loadProfiles_ignores_the_grouping
    (npubss : list (list TNostrPublic)) w :
  loadProfiles npubss w = loadProfiles [concat npubss] w ∧
  loadProfiles npubss w = loadProfiles [requested npubss] w ∧
  ∀ npubss', concat npubss' = concat npubss →
    loadProfiles npubss' w = loadProfiles npubss w.
Proof.
  rewrite !loadProfiles_unfold. unfold to_fetch, requested. simpl.
  rewrite !app_nil_r, Set_spread_idemp. split_and!; [done..|].
  intros npubss' Heq. rewrite loadProfiles_unfold. unfold to_fetch.
  by rewrite Heq.
Qed.

End Loading.

(** ** The further theorems at work *)

Lemma removeAccount_of_absent_witness :
  obj_get (accounts (secrets watched_world)) (IUnauthenticatedUser.npub bob) = None ∧
  @accepted (browser 1000) (localStorage watched_world) (accounts (secrets watched_world)) ∧
  ∃ w',
    @NostrSecretStatefull.removeAccount (browser 1000) bob watched_world = (Ok tt, w') ∧
    accounts (secrets w') = [("npub1alice", alice)] ∧
    BehaviorSubject.observers (accountsSubject (secrets w')) =
      [[[]; [alice]; [alice]]].
Proof.
  split; [reflexivity|]. split; [vm_compute; reflexivity|].
  destruct (@removeAccount_of_absent_republishes (browser 1000) bob watched_world)
    as (w' & Hrun & Hreg & Hobs & _).
  - reflexivity.
  - vm_compute. reflexivity.
  - exists w'. split_and!; [exact Hrun|exact Hreg|exact Hobs].
Defined.

Lemma registry_well_formed_witness :
  registry_wf (accounts (secrets watched_world)) ∧
  registry_wf
    (accounts (secrets (@NostrSecretStatefull.addAccount (browser 20) bob watched_world).2)) ∧
  registry_wf
    (accounts (secrets (@NostrSecretStatefull.removeAccount (browser 20) alice watched_world).2)).
Proof.
  assert (registry_wf (accounts (secrets watched_world))) as Hwf.
  { split; [apply NoDup_singleton|]. by repeat constructor. }
  split; [exact Hwf|].
  exact (conj
    (proj1 (@mutations_keep_registry_well_formed (browser 20) bob watched_world Hwf))
    (proj2 (@mutations_keep_registry_well_formed (browser 20) alice watched_world Hwf))).
Defined.

Lemma completed_mutation_witness :
  let w' := (@NostrSecretStatefull.addAccount (browser 1000) bob watched_world).2 in
  @NostrSecretStatefull.addAccount (browser 1000) bob watched_world = (Ok tt, w') ∧
  BehaviorSubject.observers (accountsSubject (secrets w')) =
    [[[]; [alice]; [alice; bob]]] ∧
  BehaviorSubject.value (accountsSubject (secrets w')) = [alice; bob].
Proof.
  intros w'.
  assert (@NostrSecretStatefull.addAccount (browser 1000) bob watched_world =
          (Ok tt, w')) as Hrun by (vm_compute; reflexivity).
  split; [exact Hrun|].
  destruct (@completed_mutation_publishes_one_snapshot (browser 1000) bob
              watched_world w' (or_introl Hrun)) as (Hobs & Hval & _).
  split; [rewrite Hobs|rewrite Hval]; vm_compute; reflexivity.
Defined.


Lemma restart_witness :
  let w' := (@NostrSecretStatefull.addAccount (browser 1000) alice empty_world).2 in
  @NostrSecretStatefull.addAccount (browser 1000) alice empty_world = (Ok tt, w') ∧
  ∃ st,
    @NostrSecretStatefull.constructor (browser 1000) None (localStorage w') =
      Ok (st, Some st) ∧
    accounts st = [("npub1alice", alice)] ∧
    BehaviorSubject.value (accountsSubject st) = [alice].
Proof.
  intros w'.
  assert (@NostrSecretStatefull.addAccount (browser 1000) alice empty_world =
          (Ok tt, w')) as Hrun by (vm_compute; reflexivity).
  split; [exact Hrun|].
  destruct (@completed_mutation_survives_restart (browser 1000) alice
              empty_world w' (or_introl Hrun)) as (st & Hnew & Hreg & Hval & _).
  - vm_compute. discriminate.
  - vm_compute. reflexivity.
  - exists st. split_and!; [exact Hnew|exact Hreg|exact Hval].
Defined.


Lemma empty_storage_witness :
  @JSON_parse (browser 1000) "{}" = Some [] ∧
  @NostrSecretStatefull.constructor (browser 1000) None
    {[ NostrSecretStatefull.STORAGE_KEY := "" ]} =
    Ok (mkSecretStore [] (BehaviorSubject.new []),
        Some (mkSecretStore [] (BehaviorSubject.new []))) ∧
  @JSON_parse (browser 1000) "oops" = None ∧
  @NostrSecretStatefull.constructor (browser 1000) None
    {[ NostrSecretStatefull.STORAGE_KEY := "oops" ]} = Throw SyntaxError.
Proof.
  destruct (@construction_without_a_stored_blob (browser 1000)
              {[ NostrSecretStatefull.STORAGE_KEY := "" ]}) as [Hempty _].
  destruct (@construction_without_a_stored_blob (browser 1000)
              {[ NostrSecretStatefull.STORAGE_KEY := "oops" ]}) as [_ Hbad].
  split_and!; [reflexivity| |reflexivity|].
  - apply Hempty; [right|]; reflexivity.
  - apply (Hbad "oops" None); [reflexivity|discriminate|reflexivity].
Defined.

Lemma composition_witness :
  IUnauthenticatedUser.npub alice ≠ IUnauthenticatedUser.npub bob ∧
  accounts (secrets (@NostrSecretStatefull.removeAccount (browser 20) bob
     (@NostrSecretStatefull.addAccount (browser 20) alice empty_world).2).2) =
  accounts (secrets (@NostrSecretStatefull.addAccount (browser 20) alice
     (@NostrSecretStatefull.removeAccount (browser 20) bob empty_world).2).2).
Proof.
  assert (IUnauthenticatedUser.npub alice ≠ IUnauthenticatedUser.npub bob)
    as Hne by discriminate.
  split; [exact Hne|].
  destruct (@mutations_compose_on_the_registry (browser 20) alice bob empty_world)
    as (_ & _ & Hcomm).
  exact (Hcomm Hne).
Defined.

Lemma load_decision_witness :
  @ProfileProxy.load_string answering_api "p1" p1_eager_world =
    (Ok (Some (ProfileAt "p1")), p1_eager_world) ∧
  requests (@ProfileProxy.load_string answering_api "p1" p1_lazy_world).2 = [["p1"]] ∧
  requests (@ProfileProxy.load_string answering_api "p9" p1_lazy_world).2 = [["p9"]].
Proof.
  destruct (@load_reaches_the_remote_only_for_absent_or_lazy answering_api "p1"
              p1_eager_world) as [Hcached _].
  destruct (@load_reaches_the_remote_only_for_absent_or_lazy answering_api "p1"
              p1_lazy_world) as [_ Hlazy].
  destruct (@load_reaches_the_remote_only_for_absent_or_lazy answering_api "p9"
              p1_lazy_world) as [_ Habsent].
  split_and!.
  - apply (Hcached (profile_of "p1" EAGER_LOADED)); [reflexivity|discriminate].
  - destruct Hlazy as [Hreq _]; [|exact Hreq].
    right. exists (profile_of "p1" LAZY_LOADED). split; reflexivity.
  - destruct Habsent as [Hreq _]; [|exact Hreq]. left. reflexivity.
Defined.

Lemma load_resolves_witness :
  let w1 := (@ProfileProxy.load_string answering_api "p1" p1_lazy_world).2 in
  @ProfileProxy.load_string answering_api "p1" p1_lazy_world =
    (Ok (Some (ProfileAt "p1")), w1) ∧
  is_Some (deref w1 (ProfileAt "p1")).
Proof.
  intros w1.
  assert (@ProfileProxy.load_string answering_api "p1" p1_lazy_world =
          (Ok (Some (ProfileAt "p1")), w1)) as Hload by (vm_compute; reflexivity).
  split; [exact Hload|].
  exact (proj2 (@load_resolves_to_the_cached_object answering_api "p1"
                  p1_lazy_world w1 _ Hload)).
Defined.

Lemma loadFromPubKey_witness :
  @ProfileProxy.loadFromPubKey answering_api refusing_converter "ab12" p1_eager_world =
    (Throw FormatError, p1_eager_world) ∧
  requests (@ProfileProxy.loadFromPubKey answering_api prefix_converter "ab12"
              p1_eager_world).2 = [["npub1ab12"]].
Proof.
  destruct (@loadFromPubKey_skips_the_cache_guard answering_api refusing_converter
              "ab12" p1_eager_world) as [Hrefused _].
  destruct (@loadFromPubKey_skips_the_cache_guard answering_api prefix_converter
              "ab12" p1_eager_world) as [_ Hconverted].
  split.
  - apply Hrefused. reflexivity.
  - destruct (Hconverted "npub1ab12" eq_refl) as [Hreq _]. exact Hreq.
Defined.

Lemma loadAccount_failures_witness :
  @ProfileProxy.loadAccount answering_api refusing_keys sealing_encrypt
    "s3cret" "1234" empty_world = (Throw FormatError, empty_world) ∧
  (@ProfileProxy.loadAccount failing_api prefix_keys sealing_encrypt
     "s3cret" "1234" empty_world).1 = Throw FetchError ∧
  profiles (@ProfileProxy.loadAccount failing_api prefix_keys sealing_encrypt
              "s3cret" "1234" empty_world).2 = ∅.
Proof.
  destruct (@loadAccount_persists_nothing answering_api refusing_keys
              sealing_encrypt "s3cret" "1234" empty_world)
    as (_ & _ & _ & Hformat & _).
  destruct (@loadAccount_persists_nothing failing_api prefix_keys
              sealing_encrypt "s3cret" "1234" empty_world)
    as (_ & _ & _ & _ & Hrejected).
  split; [apply Hformat; reflexivity|].
  rewrite (Hrejected (mkNostrUser "s3cret" "npub1s3cret") FetchError
             (set_requests (λ _, [["npub1s3cret"]]) empty_world));
    [split; reflexivity|reflexivity|vm_compute; reflexivity].
Defined.

Lemma loadProfiles_result_witness :
  let w' := (@ProfileProxy.loadProfiles answering_api [["p1"; "p2"]; ["p3"; "p2"]]
               p1_eager_world).2 in
  @ProfileProxy.loadProfiles answering_api [["p1"; "p2"]; ["p3"; "p2"]]
    p1_eager_world = (Ok [ProfileAt "p2"; ProfileAt "p3"], w') ∧
  NoDup [ProfileAt "p2"; ProfileAt "p3"] ∧
  ["p2"; "p3"] `sublist_of` requested [["p1"; "p2"]; ["p3"; "p2"]].
Proof.
  intros w'.
  assert (@ProfileProxy.loadProfiles answering_api [["p1"; "p2"]; ["p3"; "p2"]]
            p1_eager_world = (Ok [ProfileAt "p2"; ProfileAt "p3"], w'))
    as Hrun by (vm_compute; reflexivity).
  split; [exact Hrun|].
  destruct (@loadProfiles_returns_the_fetched_identifiers answering_api _ _ _ _ Hrun)
    as (Hnodup & Hsub & _).
  split; [exact Hnodup|exact Hsub].
Defined.

Lemma grouping_witness :
  @ProfileProxy.loadProfiles answering_api [["p1"]; ["p2"; "p1"]] empty_world =
  @ProfileProxy.loadProfiles answering_api [["p1"; "p2"]; ["p1"]] empty_world.
Proof.
  destruct (@loadProfiles_ignores_the_grouping answering_api
              [["p1"; "p2"]; ["p1"]] empty_world) as (_ & _ & Hsame).
  apply Hsame. reflexivity.
Defined.
